(** * RFID block-oriented string storage: write_string / read_string /
      get_string_info of [RFID_Manager] (legacy_rfid_manager.py)

    A shallow embedding of the string-storage cluster of the card manager and
    of the block operations it calls.  Python integers are [Z], a [bytes] /
    [bytearray] value is a [list Z] of values in [0, 255], a [str] is the
    [list Z] of its Unicode code points.  The card is an in-memory block
    device: its dump is the byte image that [read_card_raw] returns. *)

From Stdlib Require Import String Ascii ZArith List Bool Lia Sorted.
From Stdlib Require Floats.
Import ListNotations.
Local Open Scope Z_scope.

(** ** Python built-ins used by the manager *)

(** [len(x)] *)
Definition len {A : Type} (l : list A) : Z := Z.of_nat (List.length l).

(** [x[a:b]] for [0 <= a]; Python clips both ends to the length of [x]. *)
Definition slice {A : Type} (l : list A) (a b : Z) : list A :=
  firstn (Z.to_nat (b - a)) (skipn (Z.to_nat a) l).

(** [x[a:a+16] = data] on a bytearray, for [0 <= a]: the slice is replaced by
    [data], whatever the length of [data]. *)
Definition splice (l : list Z) (a : Z) (data : list Z) : list Z :=
  firstn (Z.to_nat a) l ++ data ++ skipn (Z.to_nat (a + 16)) l.

Fixpoint bytes_eqb (x y : list Z) : bool :=
  match x, y with
  | [], [] => true
  | a :: x', b :: y' => (a =? b) && bytes_eqb x' y'
  | _, _ => false
  end.

(** The code points of an ASCII literal, to write test strings. *)
Definition codepoints (s : string) : list Z :=
  map (fun a => Z.of_N (N_of_ascii a)) (list_ascii_of_string s).

(** ** UTF-8, as [str.encode('utf-8')] and
       [bytes.decode("utf-8", errors="ignore")] compute it

    The two are CPython's, not the repository's; the 6-bit digits that
    CPython takes with shifts and masks are written with [/] and [mod]. *)
Module Utf8.

Definition is_surrogate (c : Z) : bool := (0xD800 <=? c) && (c <=? 0xDFFF).

(** One code point.  A lone surrogate makes [encode] raise
    UnicodeEncodeError ([None]); values outside [0, 0x10FFFF] are not
    characters of a [str]. *)
Definition encode_char (c : Z) : option (list Z) :=
  if c <? 0 then None
  else if c <? 0x80 then Some [c]
  else if c <? 0x800 then Some [0xC0 + c / 64; 0x80 + c mod 64]
  else if c <? 0x10000 then
    if is_surrogate c then None
    else Some [0xE0 + c / 4096; 0x80 + (c / 64) mod 64; 0x80 + c mod 64]
  else if c <=? 0x10FFFF then
    Some [0xF0 + c / 262144; 0x80 + (c / 4096) mod 64;
          0x80 + (c / 64) mod 64; 0x80 + c mod 64]
  else None.

Fixpoint encode (s : list Z) : option (list Z) :=
  match s with
  | [] => Some []
  | c :: s' =>
      match encode_char c, encode s' with
      | Some bs, Some rest => Some (bs ++ rest)
      | _, _ => None
      end
  end.

Definition is_continuation (b : Z) : bool := (0x80 <=? b) && (b <? 0xC0).

(** The decoder with the [ignore] error handler.  An invalid start byte is
    dropped; an invalid continuation byte ends the sequence and the bytes
    before it are dropped; a sequence cut by the end of the input is
    dropped whole. *)
Fixpoint decode_ignore (bs : list Z) : list Z :=
  match bs with
  | [] => []
  | b0 :: r0 =>
      if b0 <? 0x80 then b0 :: decode_ignore r0
      else if b0 <? 0xC2 then decode_ignore r0
      else if b0 <? 0xE0 then
        match r0 with
        | [] => []
        | b1 :: r1 =>
            if is_continuation b1
            then ((b0 - 0xC0) * 64 + (b1 - 0x80)) :: decode_ignore r1
            else decode_ignore r0
        end
      else if b0 <? 0xF0 then
        match r0 with
        | [] => []
        | b1 :: r1 =>
            if negb (is_continuation b1)
               || (if b1 <? 0xA0 then b0 =? 0xE0 else b0 =? 0xED)
            then decode_ignore r0
            else
              match r1 with
              | [] => []
              | b2 :: r2 =>
                  if is_continuation b2
                  then ((b0 - 0xE0) * 4096 + (b1 - 0x80) * 64 + (b2 - 0x80))
                         :: decode_ignore r2
                  else decode_ignore r1
              end
        end
      else if b0 <? 0xF5 then
        match r0 with
        | [] => []
        | b1 :: r1 =>
            if negb (is_continuation b1)
               || (if b1 <? 0x90 then b0 =? 0xF0 else b0 =? 0xF4)
            then decode_ignore r0
            else
              match r1 with
              | [] => []
              | b2 :: r2 =>
                  if negb (is_continuation b2) then decode_ignore r1
                  else
                    match r2 with
                    | [] => []
                    | b3 :: r3 =>
                        if is_continuation b3
                        then ((b0 - 0xF0) * 262144 + (b1 - 0x80) * 4096
                              + (b2 - 0x80) * 64 + (b3 - 0x80))
                               :: decode_ignore r3
                        else decode_ignore r2
                    end
              end
        end
      else decode_ignore r0
  end.

(** The shapes [encode_char] produces, by the 6-bit digits of the code
    point. *)
Inductive encoded : Z -> list Z -> Prop :=
| enc1 c : 0 <= c < 0x80 -> encoded c [c]
| enc2 h l :
    2 <= h < 32 -> 0 <= l < 64 ->
    encoded (h * 64 + l) [0xC0 + h; 0x80 + l]
| enc3 h m l :
    0 <= h < 16 -> 0 <= m < 64 -> 0 <= l < 64 ->
    (h = 0 -> 32 <= m) -> (h = 13 -> m < 32) ->
    encoded (h * 4096 + m * 64 + l) [0xE0 + h; 0x80 + m; 0x80 + l]
| enc4 h m n l :
    0 <= h <= 4 -> 0 <= m < 64 -> 0 <= n < 64 -> 0 <= l < 64 ->
    (h = 0 -> 16 <= m) -> (h = 4 -> m < 16) ->
    encoded (h * 262144 + m * 4096 + n * 64 + l)
            [0xF0 + h; 0x80 + m; 0x80 + n; 0x80 + l].

End Utf8.

(** ** The card manager *)
Module RFID_Manager.

(** The card on the reader, as an in-memory block device.  [dump] is the
    byte image of the card as [read_card_raw] returns it; [is_4k] is what
    [nfc-list] reports (SAK 18), which decides both the card type of
    [get_card_info] and [_is_4k_card_quick]; [transfer_ok b] tells whether
    the device takes a write of block [b]; [confirm_trailer] is the
    operator's answer to the trailer prompt of [write_block]; [transfers]
    lists the blocks handed to the device for writing so far, oldest
    first. *)
Record Card := mkCard {
  is_4k : bool;
  dump : list Z;
  transfer_ok : Z -> bool;
  confirm_trailer : bool;
  transfers : list (Z * list Z)
}.

(** [(block + 1) % 4 == 0] *)
Definition is_trailer (block : Z) : bool := (block + 1) mod 4 =? 0.

(** The reserved blocks of the data model: block 0 and the trailers. *)
Definition is_reserved (block : Z) : bool := (block =? 0) || is_trailer block.

(** [256 if card_info.get('type') == 'MIFARE Classic 4K' else 64] *)
Definition max_blocks (card : Card) : Z := if is_4k card then 256 else 64.

(** [read_card_raw]: a dump shorter than 1 KB is no dump. *)
Definition read_card_raw (card : Card) : option (list Z) :=
  if 1024 <=? len (dump card) then Some (dump card) else None.

(** [read_block] *)
Definition read_block (card : Card) (block_num : Z) : option (list Z) :=
  let max_index := if is_4k card then 255 else 63 in
  if negb ((0 <=? block_num) && (block_num <=? max_index)) then None
  else
    match read_card_raw card with
    | Some data =>
        if (block_num + 1) * 16 <=? len data
        then Some (slice data (block_num * 16) (block_num * 16 + 16))
        else None
    | None => None
    end.

(** [write_block].  Its own checks come first; the write itself belongs to
    the device: for a 1K card the exit status of [nfc-mfclassic], for a 4K
    card the result of [_write_single_block_4k], which is True only when the
    block reads back as [data].  [transfer_ok] stands for that outcome; a
    write that succeeds replaces the block in the image. *)
Definition write_block (card : Card) (block_num : Z) (data : list Z)
  : bool * Card :=
  if negb (len data =? 16) then (false, card)
  else
    let max_index := if is_4k card then 255 else 63 in
    if negb ((0 <=? block_num) && (block_num <=? max_index)) then (false, card)
    else if block_num =? 0 then (false, card)
    else if is_trailer block_num && negb (confirm_trailer card) then (false, card)
    else
      match read_card_raw card with
      | None => (false, card)
      | Some card_data =>
          let handed := transfers card ++ [(block_num, data)] in
          if transfer_ok card block_num then
            (true,
             mkCard (is_4k card) (splice card_data (block_num * 16) data)
                    (transfer_ok card) (confirm_trailer card) handed)
          else
            (false,
             mkCard (is_4k card) (dump card) (transfer_ok card)
                    (confirm_trailer card) handed)
      end.

(** *** write_string *)

(** The 4-byte big-endian header. *)
Definition header_bytes (char_length : Z) : list Z :=
  [ Z.land (Z.shiftr char_length 24) 0xFF;
    Z.land (Z.shiftr char_length 16) 0xFF;
    Z.land (Z.shiftr char_length 8) 0xFF;
    Z.land char_length 0xFF ].

(** [while len(data) % 16 != 0: data.append(0)]; at most 15 rounds. *)
Fixpoint pad_loop (fuel : nat) (data : list Z) : list Z :=
  match fuel with
  | O => data
  | S fuel' =>
      if negb (len data mod 16 =? 0) then pad_loop fuel' (data ++ [0])
      else data
  end.

Definition pad_to_block (data : list Z) : list Z := pad_loop 15 data.

(** The allocation loop:
    [while len(available_blocks) < chunks_needed and current_block < max_blocks].
    [current_block] grows by one in every round, so [max_blocks -
    current_block] rounds are all the loop can make. *)
Fixpoint find_available (fuel : nat) (chunks_needed maxb current_block : Z)
         (available_blocks : list Z) : list Z :=
  match fuel with
  | O => available_blocks
  | S fuel' =>
      if (len available_blocks <? chunks_needed) && (current_block <? maxb)
      then
        if is_trailer current_block
        then find_available fuel' chunks_needed maxb (current_block + 1)
                            available_blocks
        else find_available fuel' chunks_needed maxb (current_block + 1)
                            (available_blocks ++ [current_block])
      else available_blocks
  end.

(** [for i in range(chunks_needed)]: write chunk [i] to
    [available_blocks[i]], stop at the first failure. *)
Fixpoint write_chunks (todo : list nat) (available_blocks data : list Z)
         (card : Card) : bool * Card :=
  match todo with
  | [] => (true, card)
  | i :: todo' =>
      match nth_error available_blocks i with
      | None => (false, card)
      | Some block_num =>
          let chunk_data :=
            slice data (Z.of_nat i * 16) ((Z.of_nat i + 1) * 16) in
          let '(ok, card') := write_block card block_num chunk_data in
          if ok then write_chunks todo' available_blocks data card'
          else (false, card')
      end
  end.

(** What [write_string] has worked out when it reaches the write loop, or
    the reason why it returned before. *)
Inductive preparation :=
| TooLong
| InvalidStart
| EncodeError
| Prepared (start_block : Z) (data : list Z) (chunks_needed : Z)
           (available_blocks : list Z).

Definition prepare (card : Card) (start_block : Z) (text : list Z)
           (max_length : Z) : preparation :=
  if len text >? max_length then TooLong
  else if start_block =? 0 then InvalidStart
  else
    let start_block :=
      if is_trailer start_block then start_block + 1 else start_block in
    match Utf8.encode text with
    | None => EncodeError
    | Some text_bytes =>
        let char_length := len text in
        let data := pad_to_block (header_bytes char_length ++ text_bytes) in
        let chunks_needed := len data / 16 in
        let maxb := max_blocks card in
        Prepared start_block data chunks_needed
                 (find_available (Z.to_nat (maxb - start_block))
                                 chunks_needed maxb start_block [])
    end.

(** The result of a call: the value returned, or an exception that leaves
    the function. *)
Inductive outcome := Returned (b : bool) | Raised.

Definition write_string (card : Card) (start_block : Z) (text : list Z)
           (max_length : Z) : outcome * Card :=
  match prepare card start_block text max_length with
  | TooLong | InvalidStart => (Returned false, card)
  | EncodeError => (Raised, card)
  | Prepared _ data chunks_needed available_blocks =>
      if len available_blocks <? chunks_needed then (Returned false, card)
      else
        let '(ok, card') :=
          write_chunks (seq 0 (Z.to_nat chunks_needed))
                       available_blocks data card in
        (Returned ok, card')
  end.

(** *** read_string *)

Definition byte_at (block_data : list Z) (i : nat) : Z := nth i block_data 0.

Definition length_4byte (block_data : list Z) : Z :=
  Z.lor (Z.lor (Z.lor (Z.shiftl (byte_at block_data 0) 24)
                      (Z.shiftl (byte_at block_data 1) 16))
               (Z.shiftl (byte_at block_data 2) 8))
        (byte_at block_data 3).

Definition length_2byte (block_data : list Z) : Z :=
  Z.lor (Z.shiftl (byte_at block_data 0) 8) (byte_at block_data 1).

Inductive header_format := NewFormat | OldFormat.

Record header := mkHeader {
  format : header_format;
  char_count : Z;
  data_start : Z;
  header_size : Z
}.

(** Step 1 of [read_string]: the header of the first block. *)
Definition read_string_header (block_data : list Z) (max_length : Z)
  : option header :=
  let l4 := length_4byte block_data in
  let l2 := length_2byte block_data in
  if ((0 <? l4) && (l4 <=? max_length))
     && ((byte_at block_data 0 =? 0)
         || ((byte_at block_data 0 =? 0) && (byte_at block_data 1 =? 0)))
  then Some (mkHeader NewFormat l4 4 4)
  else if (0 <? l2) && (l2 <=? 1000)
  then Some (mkHeader OldFormat l2 2 2)
  else None.

Definition zero_block : list Z := repeat 0 16.

(** The collection loop of [read_string]; it returns [raw_bytes].
    [expired tick] tells whether the 30 s deadline has passed when round
    [tick] checks the clock.  [current_block] grows by one in every round
    that does not leave the loop. *)
Fixpoint read_blocks (fuel : nat) (expired : nat -> bool) (card : Card)
         (count maxb max_blocks_to_read : Z) (tick : nat)
         (current_block chars_decoded blocks_read : Z) (raw_bytes : list Z)
  : list Z :=
  match fuel with
  | O => raw_bytes
  | S fuel' =>
      if ((chars_decoded <? count) && (current_block <? maxb))
         && (blocks_read <? max_blocks_to_read)
      then
        if expired tick then raw_bytes
        else if is_trailer current_block
        then read_blocks fuel' expired card count maxb max_blocks_to_read
                         (S tick) (current_block + 1) chars_decoded
                         blocks_read raw_bytes
        else
          match read_block card current_block with
          | None | Some [] => raw_bytes
          | Some block_data =>
              let blocks_read := blocks_read + 1 in
              if bytes_eqb block_data zero_block
                 && (len (Utf8.decode_ignore raw_bytes) >=? count)
              then raw_bytes
              else
                let raw_bytes := raw_bytes ++ block_data in
                let chars_decoded := len (Utf8.decode_ignore raw_bytes) in
                if chars_decoded >=? count then raw_bytes
                else read_blocks fuel' expired card count maxb
                                 max_blocks_to_read (S tick)
                                 (current_block + 1) chars_decoded
                                 blocks_read raw_bytes
          end
      else raw_bytes
  end.

(** The bytes [read_string] collects for a header, first block included. *)
Definition collect (expired : nat -> bool) (card : Card) (start_block : Z)
           (block_data : list Z) (h : header) : list Z :=
  let bytes_available_first_block := 16 - header_size h in
  let raw_bytes :=
    slice block_data (data_start h)
          (data_start h + bytes_available_first_block) in
  let maxb := max_blocks card in
  let current_block := start_block + 1 in
  let max_blocks_to_read := Z.min 32 (maxb - start_block) in
  read_blocks (Z.to_nat (maxb - current_block)) expired card (char_count h)
              maxb max_blocks_to_read 0 current_block 0 0 raw_bytes.

(** [read_string].  Decoding with [errors="ignore"] raises nothing, so the
    [except] branches of the function are never entered. *)
Definition read_string (expired : nat -> bool) (card : Card)
           (start_block max_length : Z) : option (list Z) :=
  match read_block card start_block with
  | None | Some [] => None
  | Some block_data =>
      match read_string_header block_data max_length with
      | None => None
      | Some h =>
          if char_count h =? 0 then Some []
          else if char_count h >? max_length then None
          else
            let raw_bytes := collect expired card start_block block_data h in
            let full_decoded := Utf8.decode_ignore raw_bytes in
            Some (firstn (Z.to_nat (char_count h)) full_decoded)
      end
  end.

(** *** get_string_info *)

(** The entries of the dictionary that come from the header and the first
    block.  ([blocks_needed] and [estimated_end_block] are floating-point
    estimates and are left out.) *)
Record string_info := mkInfo {
  info_length : Z;
  info_format : header_format;
  info_data_start : Z;
  info_preview : list Z
}.

Definition get_string_info (card : Card) (start_block : Z)
  : option string_info :=
  match read_block card start_block with
  | None | Some [] => None
  | Some block_data =>
      let l4 := length_4byte block_data in
      let l2 := length_2byte block_data in
      let found :=
        if ((0 <? l4) && (l4 <=? 10000))
           && ((byte_at block_data 0 =? 0)
               || ((byte_at block_data 0 =? 0) && (byte_at block_data 1 =? 0)))
        then Some (l4, NewFormat, 4)
        else if (0 <? l2) && (l2 <=? 1000)
        then Some (l2, OldFormat, 2)
        else None in
      match found with
      | None => None
      | Some (count, format_type, start) =>
          let preview_bytes := Z.min (16 - start) 50 in
          let preview :=
            Utf8.decode_ignore (slice block_data start (start + preview_bytes)) in
          Some (mkInfo count format_type start
                       (preview ++ (if count >? len preview
                                    then codepoints "..." else [])))
      end
  end.

End RFID_Manager.

Import RFID_Manager.

(** A blank 1K card: 64 blocks of zeros with default key trailers left out. *)
Definition blank_1k : Card :=
  mkCard false (repeat 0 1024) (fun _ => true) false [].

Definition never (_ : nat) : bool := false.

(** ** Notions used to state the properties *)

(** The card image covers every block of the card. *)
Definition covers (card : Card) : Prop :=
  max_blocks card * 16 <= len (dump card).

(** Every transfer to the card succeeds. *)
Definition transfers_succeed (card : Card) : Prop :=
  forall b, transfer_ok card b = true.

(** The card after a successful transfer of [data] to block [b]. *)
Definition written (card : Card) (b : Z) (data : list Z) : Card :=
  mkCard (is_4k card) (splice (dump card) (b * 16) data) (transfer_ok card)
         (confirm_trailer card) (transfers card ++ [(b, data)]).

(** The blocks [cur], [cur + 1], ... ([n] of them). *)
Fixpoint block_range (n : nat) (cur : Z) : list Z :=
  match n with
  | O => []
  | S n' => cur :: block_range n' (cur + 1)
  end.

(** The non-reserved blocks from [start_block] to the end of the card. *)
Definition free_blocks (card : Card) (start_block : Z) : list Z :=
  filter (fun b => negb (is_reserved b))
         (block_range (Z.to_nat (max_blocks card - start_block)) start_block).

(** The first [k] blocks that are no trailers among the [n] blocks from
    [cur] on. *)
Fixpoint take_free (n k : nat) (cur : Z) : list Z :=
  match n, k with
  | O, _ | _, O => []
  | S n', S k' =>
      if is_trailer cur then take_free n' k (cur + 1)
      else cur :: take_free n' k' (cur + 1)
  end.

(** [plan] lists, in order and without a gap, the blocks from [cur] on that
    are no trailers, all below [maxb]. *)
Fixpoint plan_from (maxb cur : Z) (plan : list Z) : Prop :=
  match plan with
  | [] => True
  | a :: rest =>
      cur <= a < maxb /\ is_trailer a = false
      /\ (forall x, cur <= x < a -> is_trailer x = true)
      /\ plan_from maxb (a + 1) rest
  end.

(** The start block the allocation loop of [write_string] begins at. *)
Definition effective_start (start_block : Z) : Z :=
  if is_trailer start_block then start_block + 1 else start_block.

(** The string and what the padded record holds: header, bytes, zeros. *)
Definition record_bytes (n : Z) (text_bytes : list Z) : list Z :=
  header_bytes n ++ text_bytes
  ++ repeat 0 (Z.to_nat ((- (4 + len text_bytes)) mod 16)).

(** The 16-byte chunks [j], [j + 1], ... ([m] of them) of a record. *)
Definition chunks (data : list Z) (j m : nat) : list (list Z) :=
  map (fun i => slice data (Z.of_nat i * 16) ((Z.of_nat i + 1) * 16)) (seq j m).

(** ** Cards and texts of the examples *)

Definition hello : list Z := codepoints "Hello, world!".

(** A blank 1K card whose block [b] holds [content]. *)
Definition card_with_block (b : Z) (content : list Z) : Card :=
  mkCard false (splice (repeat 0 1024) (b * 16) content) (fun _ => true)
         false [].

(** A five-character string of eight UTF-8 bytes: euro sign, u umlaut, abc. *)
Definition euro_text : list Z := [0x20AC; 0xFC; 0x61; 0x62; 0x63].

(** A sector trailer with the transport keys and access bits. *)
Definition key_trailer : list Z :=
  repeat 0xFF 6 ++ [0xFF; 0x07; 0x80; 0x69] ++ repeat 0xFF 6.

(** The classification a header stands for: format, character count and
    where the data start. *)
Definition header_class (h : option header) : option (header_format * Z * Z) :=
  option_map (fun h => (format h, char_count h, data_start h)) h.

Definition info_class (i : option string_info)
  : option (header_format * Z * Z) :=
  option_map (fun i => (info_format i, info_length i, info_data_start i)) i.

Definition legacy_block : list Z := [0; 5] ++ codepoints "hello" ++ repeat 0 9.

(** A first block with the 4-byte header value 5000. *)
Definition header_5000 : list Z := [0; 0; 0x13; 0x88] ++ repeat 0x41 12.

(** A trailer whose key bytes happen to read as the header of "A". *)
Definition header_like_trailer : list Z :=
  [0; 0; 0; 1; 0x41; 0] ++ [0xFF; 0x07; 0x80; 0x69] ++ repeat 0xFF 6.

(** ** The other operations of the manager *)

(** The loop of [read_multiple_blocks]: [for i in range(num_blocks)]. *)
Fixpoint read_each (card : Card) (start_block : Z) (todo : list nat)
         (result : list Z) : option (list Z) :=
  match todo with
  | [] => Some result
  | i :: todo' =>
      match read_block card (start_block + Z.of_nat i) with
      | None => None
      | Some block_data =>
          read_each card start_block todo' (result ++ block_data)
      end
  end.

(** [read_multiple_blocks] *)
Definition read_multiple_blocks (card : Card) (start_block num_blocks : Z)
  : option (list Z) :=
  if start_block + num_blocks >? max_blocks card then None
  else read_each card start_block (seq 0 (Z.to_nat num_blocks)) [].

(** [write_long_string] *)
Definition write_long_string (card : Card) (text : list Z) (start_sector : Z)
  : outcome * Card :=
  let start_block := start_sector * 4 in
  let start_block := if start_sector =? 0 then 1 else start_block in
  write_string card start_block text 10000.

(** The integer entries of the dictionary of [get_available_space].
    ([estimated_max_chars] is a floating-point estimate and is left out.) *)
Record space := mkSpace {
  total_blocks : Z;
  available_blocks : Z;
  available_bytes : Z;
  usable_bytes : Z;
  space_start_block : Z
}.

(** [get_available_space] *)
Definition get_available_space (card : Card) (start_block : Z) : space :=
  let maxb := max_blocks card in
  let first := Z.max 1 start_block in
  let available :=
    filter (fun block => negb ((block + 1) mod 4 =? 0))
           (block_range (Z.to_nat (maxb - first)) first) in
  let total_bytes := len available * 16 in
  let usable_bytes := total_bytes - 4 in
  mkSpace maxb (len available) total_bytes usable_bytes start_block.

(** The card after a transfer of [data] to block [b] that failed. *)
Definition attempted (card : Card) (b : Z) (data : list Z) : Card :=
  mkCard (is_4k card) (dump card) (transfer_ok card) (confirm_trailer card)
         (transfers card ++ [(b, data)]).

(** A transfer that [write_block] may hand to the device from
    [write_string]: 16 bytes for a block of the card that is not reserved. *)
Definition data_transfer (card : Card) (t : Z * list Z) : Prop :=
  1 <= fst t < max_blocks card /\ is_reserved (fst t) = false
  /\ len (snd t) = 16.

(** The blocks [write_string] plans for a record of [text_bytes] bytes of
    text when it starts looking at [start_block]. *)
Definition record_blocks (card : Card) (start_block : Z) (text_bytes : list Z)
  : list Z :=
  take_free (Z.to_nat (max_blocks card - effective_start start_block))
            (Z.to_nat ((4 + len text_bytes + 15) / 16))
            (effective_start start_block).

(** The transfers that store chunks [j], [j + 1], ... ([m] of them) of
    [data] in the blocks of [plan]. *)
Definition chunk_transfers (plan data : list Z) (j m : nat)
  : list (Z * list Z) :=
  map (fun i => (nth i plan 0,
                 slice data (Z.of_nat i * 16) ((Z.of_nat i + 1) * 16)))
      (seq j m).

(** A blank 1K card whose device refuses the transfers to block [b]. *)
Definition refusing (b : Z) : Card :=
  mkCard false (repeat 0 1024) (fun x => negb (x =? b)) false [].

(** The first data block of a sector, as [write_long_string] works it
    out. *)
Definition sector_start (start_sector : Z) : Z :=
  if start_sector =? 0 then 1 else start_sector * 4.

(** ** The legacy reader of libnfc_reader.py *)
Module LibNFC_MIFARE.

(** Where an index of a Python slice falls in a sequence of [n] items. *)
Definition index (n i : Z) : Z :=
  if i <? 0 then Z.max 0 (i + n) else Z.min i n.

(** [l[a:b]], negative indices counted from the end. *)
Definition py_slice {A : Type} (l : list A) (a b : Z) : list A :=
  slice l (index (len l) a) (index (len l) b).

(** [read_card]: the dump of [nfc-mfclassic], if it has any bytes. *)
Definition read_card (card : Card) : option (list Z) :=
  if len (dump card) >? 0 then Some (dump card) else None.

(** [read_block]: no check of the block number. *)
Definition read_block (card : Card) (block_num : Z) : option (list Z) :=
  match read_card card with
  | Some data =>
      if len data >=? (block_num + 1) * 16
      then Some (py_slice data (block_num * 16) (block_num * 16 + 16))
      else None
  | None => None
  end.

(** The loop of [read_long_string]:
    [while copied < length and block_num < 64].  [block_num] grows by one
    in every round that does not leave the loop. *)
Fixpoint copy_blocks (fuel : nat) (card : Card) (length block_num copied : Z)
         (data : list Z) : list Z :=
  match fuel with
  | O => data
  | S fuel' =>
      if (copied <? length) && (block_num <? 64) then
        if block_num mod 4 =? 3
        then copy_blocks fuel' card length (block_num + 1) copied data
        else
          match read_block card block_num with
          | None | Some [] => data
          | Some block_data =>
              let need := length - copied in
              let copy_now := Z.min 16 need in
              copy_blocks fuel' card length (block_num + 1)
                          (copied + copy_now)
                          (data ++ py_slice block_data 0 copy_now)
          end
      else data
  end.

(** [read_long_string]: a 2-byte length in bytes, then the bytes.  A first
    block of fewer than two bytes makes [block_data[1]] raise IndexError,
    which the function turns into None. *)
Definition read_long_string (card : Card) (start_block : Z)
  : option (list Z) :=
  match read_block card start_block with
  | None | Some [] => None
  | Some block_data =>
      if len block_data <? 2 then None
      else
        let length :=
          Z.lor (Z.shiftl (byte_at block_data 0) 8) (byte_at block_data 1) in
        if length =? 0 then Some []
        else if length >? 900 then None
        else
          let data := py_slice block_data 2 (2 + Z.min 14 length) in
          let copied := len data in
          let block_num := start_block + 1 in
          Some (Utf8.decode_ignore
                  (copy_blocks (Z.to_nat (64 - block_num)) card length
                               block_num copied data))
  end.

End LibNFC_MIFARE.

(** ** examples.py: example_5_data_storage *)

(** [data_items], with the date that [time.strftime] gives. *)
Definition data_items (issued : list Z) : list (list Z * list Z) :=
  [ (codepoints "Name", codepoints "John Doe");
    (codepoints "Department", codepoints "Engineering");
    (codepoints "Access Level", codepoints "2");
    (codepoints "Issued", issued) ].

(** The storing loop: one [write_string] per item, two blocks apart; a
    write that returns False ends the example, an exception leaves it. *)
Fixpoint store_items (card : Card) (current_block : Z)
         (items : list (list Z * list Z)) : outcome * Card :=
  match items with
  | [] => (Returned true, card)
  | (label, value) :: rest =>
      let data_string := label ++ codepoints ": " ++ value in
      match write_string card current_block data_string 3000 with
      | (Returned true, card') => store_items card' (current_block + 2) rest
      | (r, card') => (r, card')
      end
  end.

(** The reading loop: what [read_string] returns for each item. *)
Fixpoint read_items (expired : nat -> bool) (card : Card) (current_block : Z)
         (items : list (list Z * list Z)) : list (option (list Z)) :=
  match items with
  | [] => []
  | _ :: rest =>
      read_string expired card current_block 3000
      :: read_items expired card (current_block + 2) rest
  end.

(** [example_5_data_storage] with a card on the reader: its result, the
    card afterwards and the strings read back. *)
Definition example_5_data_storage (expired : nat -> bool) (card : Card)
           (issued : list Z) : outcome * Card * list (option (list Z)) :=
  let start_block := 4 in
  match store_items card start_block (data_items issued) with
  | (Returned true, card') =>
      (Returned true, card',
       read_items expired card' start_block (data_items issued))
  | (r, card') => (r, card', [])
  end.

(** ** The block walk of the legacy readers (2main.py, auth.py, debug.py) *)

(** [(block_num % 4) == 3] *)
Definition is_trailer_block (block_num : Z) : bool := block_num mod 4 =? 3.

(** [next_data_block] *)
Definition next_data_block (block_num : Z) : Z :=
  let block_num := block_num + 1 in
  if is_trailer_block block_num then block_num + 1 else block_num.

(** ** check_card_writeability *)
Module Writeability.
Import PrimFloat.

(** [pattern in block_data] on bytes. *)
Fixpoint starts_with (pattern block_data : list Z) : bool :=
  match pattern, block_data with
  | [], _ => true
  | _ :: _, [] => false
  | x :: pattern', y :: rest => (x =? y) && starts_with pattern' rest
  end.

Fixpoint contains (pattern block_data : list Z) : bool :=
  starts_with pattern block_data
  || match block_data with
     | [] => false
     | _ :: rest => contains pattern rest
     end.

Definition demo_patterns : list (list Z) :=
  [ codepoints "TEST-4K"; codepoints "TEST-1K"; codepoints "DEMO-";
    codepoints "SAMPLE" ].

(** The loop over the blocks: trailers are passed over, every other block
    is counted, and counted as a demo block when it holds a pattern. *)
Fixpoint scan (blocks : list Z) (data : list Z) (demo_blocks total_checked : Z)
  : Z * Z :=
  match blocks with
  | [] => (demo_blocks, total_checked)
  | block :: rest =>
      if (block + 1) mod 4 =? 0 then scan rest data demo_blocks total_checked
      else
        let block_data := slice data (block * 16) ((block + 1) * 16) in
        let total_checked := total_checked + 1 in
        if existsb (fun pattern => contains pattern block_data) demo_patterns
        then scan rest data (demo_blocks + 1) total_checked
        else scan rest data demo_blocks total_checked
  end.

(** ["writable"]: True, False or the string "unknown". *)
Inductive verdict := Yes | No | Unknown.

Inductive confidence_level := Low | Medium | High.

(** The dictionary without its ["reason"] text. *)
Record writeability := mkWriteability {
  writable : verdict;
  confidence : confidence_level;
  demo_blocks_found : Z;
  total_blocks_checked : Z
}.

(** [a / b] on two small integers: the quotient, as a float. *)
Definition true_div (a b : Z) : PrimFloat.float :=
  PrimFloat.div (PrimFloat.of_uint63 (Uint63.of_Z a))
                (PrimFloat.of_uint63 (Uint63.of_Z b)).

(** The float literals [0.3] and [0.1], by their binary64 values. *)
Definition ratio_high : PrimFloat.float := 0x1.3333333333333p-2%float.
Definition ratio_medium : PrimFloat.float := 0x1.999999999999ap-4%float.

(** [check_card_writeability].  The image is the cached dump or, without
    one, what [read_card_raw] returns, which is the same image. *)
Definition check_card_writeability (card : Card) : writeability :=
  match read_card_raw card with
  | None => mkWriteability Unknown Low 0 0
  | Some data =>
      let stop := Z.min 32 (len data / 16) in
      let '(demo_blocks, total_checked) :=
        scan (block_range (Z.to_nat (stop - 1)) 1) data 0 0 in
      if demo_blocks >? 0 then
        let demo_ratio := true_div demo_blocks total_checked in
        if PrimFloat.ltb ratio_high demo_ratio
        then mkWriteability No High demo_blocks total_checked
        else if PrimFloat.ltb ratio_medium demo_ratio
        then mkWriteability No Medium demo_blocks total_checked
        else mkWriteability Unknown Low demo_blocks total_checked
      else mkWriteability Yes Medium demo_blocks total_checked
  end.

End Writeability.

(** * Facts *)

(** ** Booleans and arithmetic *)

Ltac bool_cases :=
  repeat match goal with
         | |- context [?a <? ?b] => destruct (Z.ltb_spec a b)
         | |- context [?a <=? ?b] => destruct (Z.leb_spec a b)
         | |- context [?a =? ?b] => destruct (Z.eqb_spec a b)
         | |- context [?a >? ?b] => rewrite (Z.gtb_ltb a b)
         | |- context [?a >=? ?b] => rewrite (Z.geb_leb a b)
         end.

Ltac arith := Z.to_euclidean_division_equations; lia.

(** ** UTF-8 *)
Module Utf8Facts.
Import Utf8.

Lemma decode_ignore_eq (bs : list Z) :
  decode_ignore bs =
  match bs with
  | [] => []
  | b0 :: r0 =>
      if b0 <? 0x80 then b0 :: decode_ignore r0
      else if b0 <? 0xC2 then decode_ignore r0
      else if b0 <? 0xE0 then
        match r0 with
        | [] => []
        | b1 :: r1 =>
            if is_continuation b1
            then ((b0 - 0xC0) * 64 + (b1 - 0x80)) :: decode_ignore r1
            else decode_ignore r0
        end
      else if b0 <? 0xF0 then
        match r0 with
        | [] => []
        | b1 :: r1 =>
            if negb (is_continuation b1)
               || (if b1 <? 0xA0 then b0 =? 0xE0 else b0 =? 0xED)
            then decode_ignore r0
            else
              match r1 with
              | [] => []
              | b2 :: r2 =>
                  if is_continuation b2
                  then ((b0 - 0xE0) * 4096 + (b1 - 0x80) * 64 + (b2 - 0x80))
                         :: decode_ignore r2
                  else decode_ignore r1
              end
        end
      else if b0 <? 0xF5 then
        match r0 with
        | [] => []
        | b1 :: r1 =>
            if negb (is_continuation b1)
               || (if b1 <? 0x90 then b0 =? 0xF0 else b0 =? 0xF4)
            then decode_ignore r0
            else
              match r1 with
              | [] => []
              | b2 :: r2 =>
                  if negb (is_continuation b2) then decode_ignore r1
                  else
                    match r2 with
                    | [] => []
                    | b3 :: r3 =>
                        if is_continuation b3
                        then ((b0 - 0xF0) * 262144 + (b1 - 0x80) * 4096
                              + (b2 - 0x80) * 64 + (b3 - 0x80))
                               :: decode_ignore r3
                        else decode_ignore r2
                    end
              end
        end
      else decode_ignore r0
  end.
Proof. destruct bs; reflexivity. Qed.

Lemma encode_char_encoded c bs : encode_char c = Some bs -> encoded c bs.
Proof.
  unfold encode_char, is_surrogate.
  destruct (Z.ltb_spec c 0); [discriminate|].
  destruct (Z.ltb_spec c 0x80); [intros [= <-]; constructor; lia|].
  destruct (Z.ltb_spec c 0x800).
  { intros [= <-].
    pose proof (enc2 (c / 64) (c mod 64)) as E.
    replace (c / 64 * 64 + c mod 64) with c in E by arith.
    apply E; arith. }
  destruct (Z.ltb_spec c 0x10000).
  - destruct (Z.leb_spec 0xD800 c); destruct (Z.leb_spec c 0xDFFF);
      simpl; try discriminate; intros [= <-];
      pose proof (enc3 (c / 4096) ((c / 64) mod 64) (c mod 64)) as E;
      replace (c / 4096 * 4096 + (c / 64) mod 64 * 64 + c mod 64)
        with c in E by arith;
      apply E; arith.
  - destruct (Z.leb_spec c 0x10FFFF); [|discriminate].
    intros [= <-].
    pose proof (enc4 (c / 262144) ((c / 4096) mod 64) ((c / 64) mod 64)
                     (c mod 64)) as E.
    replace (c / 262144 * 262144 + (c / 4096) mod 64 * 4096
             + (c / 64) mod 64 * 64 + c mod 64) with c in E by arith.
    apply E; arith.
Qed.

Lemma encoded_nonempty c bs : encoded c bs -> bs <> [].
Proof. destruct 1; discriminate. Qed.

Lemma continuation_digit m : 0 <= m < 64 -> is_continuation (0x80 + m) = true.
Proof. unfold is_continuation; intros; bool_cases; try lia; reflexivity. Qed.

Lemma guard3_encoded h m :
  0 <= h < 16 -> 0 <= m < 64 -> (h = 0 -> 32 <= m) -> (h = 13 -> m < 32) ->
  (if 0x80 + m <? 0xA0 then 0xE0 + h =? 0xE0 else 0xE0 + h =? 0xED) = false.
Proof. intros; bool_cases; try lia; reflexivity. Qed.

Lemma guard4_encoded h m :
  0 <= h <= 4 -> 0 <= m < 64 -> (h = 0 -> 16 <= m) -> (h = 4 -> m < 16) ->
  (if 0x80 + m <? 0x90 then 0xF0 + h =? 0xF0 else 0xF0 + h =? 0xF4) = false.
Proof. intros; bool_cases; try lia; reflexivity. Qed.

(** Settle the test at the head of the goal. *)
Ltac head_ltb :=
  match goal with
  | |- (if ?a <? ?b then _ else _) = _ =>
      first [ rewrite (proj2 (Z.ltb_lt a b)) by lia
            | rewrite (proj2 (Z.ltb_ge a b)) by lia ]
  end.

Ltac decode_head :=
  rewrite decode_ignore_eq; cbv beta iota; repeat head_ltb;
  rewrite ?continuation_digit by lia; cbn [negb orb andb]; cbv beta iota;
  rewrite ?guard3_encoded, ?guard4_encoded by assumption;
  rewrite ?continuation_digit by lia; cbn [negb orb andb]; cbv beta iota;
  rewrite ?continuation_digit by lia; cbv beta iota.

(** Decoding reads back one encoded character, whatever follows it. *)
Lemma decode_encoded c bs rest :
  encoded c bs -> decode_ignore (bs ++ rest) = c :: decode_ignore rest.
Proof.
  destruct 1; cbn [app]; decode_head; try reflexivity; f_equal; lia.
Qed.

(** A character cut short by the end of the input is dropped. *)
Lemma decode_cut c bs k :
  encoded c bs -> (k < List.length bs)%nat -> decode_ignore (firstn k bs) = [].
Proof.
  intros E Hk.
  destruct k as [|k]; [reflexivity|].
  destruct E; cbn [List.length] in Hk;
    repeat (destruct k as [|k]; [cbn [firstn]; decode_head; reflexivity|]);
    lia.
Qed.

Lemma encode_cons c s bs :
  encode (c :: s) = Some bs ->
  exists cb sb, encoded c cb /\ encode s = Some sb /\ bs = cb ++ sb.
Proof.
  cbn [encode].
  destruct (encode_char c) as [cb|] eqn:Ec; [|discriminate].
  destruct (encode s) as [sb|]; [|discriminate].
  intros [= <-]. exists cb, sb. auto using encode_char_encoded.
Qed.

(** Decoding reads back an encoded string, whatever follows it. *)
Lemma decode_encode s : forall bs rest,
  encode s = Some bs -> decode_ignore (bs ++ rest) = s ++ decode_ignore rest.
Proof.
  induction s as [|c s IH]; intros bs rest E.
  - injection E as <-. reflexivity.
  - apply encode_cons in E as (cb & sb & Ec & Es & ->).
    rewrite <- app_assoc, (decode_encoded c cb) by assumption.
    cbn [app]. f_equal. auto.
Qed.

(** A proper prefix of an encoding decodes to fewer characters. *)
Lemma decode_prefix_short s : forall bs k,
  encode s = Some bs -> (k < List.length bs)%nat ->
  (List.length (decode_ignore (firstn k bs)) < List.length s)%nat.
Proof.
  induction s as [|c s IH]; intros bs k E Hk.
  - injection E as <-. cbn [List.length] in Hk. lia.
  - apply encode_cons in E as (cb & sb & Ec & Es & ->).
    rewrite firstn_app.
    destruct (Nat.lt_ge_cases k (List.length cb)) as [Hc|Hc].
    + replace (k - List.length cb)%nat with 0%nat by lia.
      rewrite firstn_O, app_nil_r, (decode_cut c cb k) by assumption.
      cbn [List.length]. lia.
    + rewrite firstn_all2, (decode_encoded c cb) by assumption.
      rewrite length_app in Hk. cbn [List.length].
      specialize (IH sb (k - List.length cb)%nat Es). lia.
Qed.

Lemma encode_length s : forall bs,
  encode s = Some bs -> (List.length s <= List.length bs)%nat.
Proof.
  induction s as [|c s IH]; intros bs E.
  - cbn [List.length]. lia.
  - apply encode_cons in E as (cb & sb & Ec & Es & ->).
    pose proof (encoded_nonempty _ _ Ec).
    rewrite length_app. specialize (IH _ Es).
    destruct cb; [congruence|]. cbn [List.length]. lia.
Qed.

End Utf8Facts.

(** ** Slices of the card image *)
Section Slices.

Lemma len_nonneg {A} (l : list A) : 0 <= len l.
Proof. unfold len; lia. Qed.

Lemma len_app {A} (l1 l2 : list A) : len (l1 ++ l2) = len l1 + len l2.
Proof. unfold len; rewrite length_app; lia. Qed.

Lemma len_repeat {A} (x : A) n : len (repeat x n) = Z.of_nat n.
Proof. unfold len; now rewrite repeat_length. Qed.

Lemma nth_error_slice {A} (l : list A) a b i :
  0 <= a ->
  nth_error (slice l a b) i =
  if (i <? Z.to_nat (b - a))%nat then nth_error l (Z.to_nat a + i) else None.
Proof. intros; unfold slice; now rewrite nth_error_firstn, nth_error_skipn. Qed.

Lemma nth_error_splice l a data j :
  0 <= a -> a + 16 <= len l -> len data = 16 ->
  nth_error (splice l a data) j =
  if (j <? Z.to_nat a)%nat then nth_error l j
  else if (j <? Z.to_nat a + 16)%nat then nth_error data (j - Z.to_nat a)
       else nth_error l j.
Proof.
  unfold len, splice; intros Ha Hl Hd.
  rewrite nth_error_app, length_firstn.
  replace (Nat.min (Z.to_nat a) (List.length l)) with (Z.to_nat a) by lia.
  destruct (Nat.ltb_spec j (Z.to_nat a)) as [Hj|Hj].
  - rewrite nth_error_firstn.
    destruct (Nat.ltb_spec j (Z.to_nat a)); [reflexivity|lia].
  - rewrite nth_error_app.
    replace (List.length data) with 16%nat by lia.
    destruct (Nat.ltb_spec (j - Z.to_nat a) 16);
      destruct (Nat.ltb_spec j (Z.to_nat a + 16)); try lia; [reflexivity|].
    rewrite nth_error_skipn. f_equal. lia.
Qed.

Lemma len_splice l a data :
  0 <= a -> a + 16 <= len l -> len data = 16 -> len (splice l a data) = len l.
Proof.
  unfold len, splice; intros.
  rewrite !length_app, length_firstn, length_skipn. lia.
Qed.

Lemma slice_splice_same l b data :
  0 <= b -> (b + 1) * 16 <= len l -> len data = 16 ->
  slice (splice l (b * 16) data) (b * 16) (b * 16 + 16) = data.
Proof.
  intros Hb Hl Hd. apply nth_error_ext; intro i.
  rewrite nth_error_slice, nth_error_splice by lia.
  replace (Z.to_nat (b * 16 + 16 - b * 16)) with 16%nat by lia.
  destruct (Nat.ltb_spec i 16).
  - destruct (Nat.ltb_spec (Z.to_nat (b * 16) + i) (Z.to_nat (b * 16)));
      [lia|].
    destruct (Nat.ltb_spec (Z.to_nat (b * 16) + i) (Z.to_nat (b * 16) + 16));
      [|lia].
    f_equal; lia.
  - symmetry. apply nth_error_None. unfold len in Hd. lia.
Qed.

Lemma slice_splice_other l b b' data :
  0 <= b -> 0 <= b' -> b <> b' -> (b + 1) * 16 <= len l -> len data = 16 ->
  slice (splice l (b * 16) data) (b' * 16) (b' * 16 + 16)
  = slice l (b' * 16) (b' * 16 + 16).
Proof.
  intros Hb Hb' Hne Hl Hd. apply nth_error_ext; intro i.
  rewrite !nth_error_slice, nth_error_splice by lia.
  replace (Z.to_nat (b' * 16 + 16 - b' * 16)) with 16%nat by lia.
  destruct (Nat.ltb_spec i 16); [|reflexivity].
  destruct (Nat.ltb_spec (Z.to_nat (b' * 16) + i) (Z.to_nat (b * 16)));
    [reflexivity|].
  destruct (Nat.ltb_spec (Z.to_nat (b' * 16) + i) (Z.to_nat (b * 16) + 16));
    [lia|reflexivity].
Qed.

End Slices.

(** ** Padding and the header *)
Section Record_layout.

Lemma pad_loop_spec fuel : forall data,
  (- len data) mod 16 <= Z.of_nat fuel ->
  pad_loop fuel data = data ++ repeat 0 (Z.to_nat ((- len data) mod 16)).
Proof.
  induction fuel as [|fuel IH]; intros data Hf.
  - cbn [pad_loop]. replace ((- len data) mod 16) with 0 by arith.
    cbn [Z.to_nat repeat]. now rewrite app_nil_r.
  - cbn [pad_loop]. destruct (Z.eqb_spec (len data mod 16) 0) as [Hz|Hz];
      cbn [negb].
    + replace ((- len data) mod 16) with 0 by arith.
      cbn [Z.to_nat repeat]. now rewrite app_nil_r.
    + rewrite IH by (rewrite len_app; unfold len at 2; cbn [List.length]; arith).
      rewrite <- app_assoc. f_equal.
      rewrite len_app. unfold len at 2. cbn [List.length].
      replace (Z.to_nat ((- len data) mod 16))
        with (S (Z.to_nat ((- (len data + Z.of_nat 1)) mod 16))) by arith.
      reflexivity.
Qed.

Lemma pad_to_block_spec data :
  pad_to_block data = data ++ repeat 0 (Z.to_nat ((- len data) mod 16)).
Proof. apply pad_loop_spec. change (Z.of_nat 15) with 15. arith. Qed.

Lemma len_header_bytes n : len (header_bytes n) = 4.
Proof. reflexivity. Qed.

Lemma padded_record n text_bytes :
  pad_to_block (header_bytes n ++ text_bytes) = record_bytes n text_bytes.
Proof.
  rewrite pad_to_block_spec, len_app, len_header_bytes.
  unfold record_bytes. now rewrite <- app_assoc.
Qed.

Lemma len_record n text_bytes :
  len (record_bytes n text_bytes) = 16 * ((4 + len text_bytes + 15) / 16).
Proof.
  unfold record_bytes. rewrite !len_app, len_header_bytes, len_repeat.
  pose proof (len_nonneg text_bytes). arith.
Qed.

Lemma chunks_of_record n text_bytes :
  len (record_bytes n text_bytes) / 16 = (4 + len text_bytes + 15) / 16.
Proof. rewrite len_record. pose proof (len_nonneg text_bytes). arith. Qed.

Lemma blocks_needed_positive (text_bytes : list Z) :
  exists k', Z.to_nat ((4 + len text_bytes + 15) / 16) = S k'.
Proof.
  pose proof (len_nonneg text_bytes).
  exists (Nat.pred (Z.to_nat ((4 + len text_bytes + 15) / 16))). arith.
Qed.

Lemma len_padded_body (text_bytes : list Z) :
  len (text_bytes ++ repeat 0 (Z.to_nat ((- (4 + len text_bytes)) mod 16)))
  = 16 * Z.of_nat (Z.to_nat ((4 + len text_bytes + 15) / 16)) - 4.
Proof.
  rewrite len_app, len_repeat. pose proof (len_nonneg text_bytes). arith.
Qed.

End Record_layout.

(** ** The allocation loop *)
Section Allocation.

Lemma find_available_take_free fuel chunks_needed maxb :
  forall current_block available_blocks,
    fuel = Z.to_nat (maxb - current_block) ->
    find_available fuel chunks_needed maxb current_block available_blocks
    = available_blocks
      ++ take_free fuel (Z.to_nat (chunks_needed - len available_blocks))
                   current_block.
Proof.
  induction fuel as [|fuel IH]; intros cur avail Hf.
  - cbn [find_available take_free]. now rewrite app_nil_r.
  - cbn [find_available].
    destruct (Z.ltb_spec (len avail) chunks_needed) as [Hk|Hk]; cbn [andb].
    + destruct (Z.ltb_spec cur maxb); [|lia].
      destruct (Z.to_nat (chunks_needed - len avail)) as [|k'] eqn:Ek; [lia|].
      cbn [take_free]. destruct (is_trailer cur).
      * rewrite IH by lia. now rewrite Ek.
      * rewrite IH by lia. rewrite <- app_assoc. cbn [app].
        rewrite len_app. unfold len at 2. cbn [List.length].
        do 3 f_equal. lia.
    + replace (Z.to_nat (chunks_needed - len avail)) with 0%nat by lia.
      cbn [take_free]. now rewrite app_nil_r.
Qed.

Lemma take_free_plan n : forall k cur,
  plan_from (cur + Z.of_nat n) cur (take_free n k cur).
Proof.
  induction n as [|n IH]; intros k cur; [exact I|].
  destruct k as [|k]; [exact I|]. cbn [take_free].
  destruct (is_trailer cur) eqn:Et.
  - specialize (IH (S k) (cur + 1)).
    replace (cur + 1 + Z.of_nat n) with (cur + Z.of_nat (S n)) in IH by lia.
    destruct (take_free n (S k) (cur + 1)) as [|a rest]; [exact I|].
    cbn [plan_from] in *. destruct IH as (Ha & Hta & Hgap & Hrest).
    repeat split; try lia; try assumption.
    intros x Hx. destruct (Z.eq_dec x cur) as [->|]; [assumption|].
    apply Hgap. lia.
  - cbn [plan_from]. repeat split; try lia; try assumption.
    specialize (IH k (cur + 1)).
    now replace (cur + 1 + Z.of_nat n) with (cur + Z.of_nat (S n)) in IH by lia.
Qed.

(** The loop finds no more blocks than the card has free, when no block 0
    is in its way. *)
Lemma take_free_free n : forall k cur,
  1 <= cur ->
  (List.length (take_free n k cur)
   <= List.length (filter (fun b => negb (is_reserved b)) (block_range n cur)))%nat.
Proof.
  induction n as [|n IH]; intros k cur Hc; [cbn; lia|].
  destruct k as [|k]; [cbn [take_free List.length]; lia|].
  cbn [take_free block_range filter]. unfold is_reserved at 1.
  destruct (Z.eqb_spec cur 0); [lia|]. cbn [orb].
  destruct (is_trailer cur); cbn [negb].
  - apply IH. lia.
  - cbn [List.length]. specialize (IH k (cur + 1)). lia.
Qed.

Lemma take_free_head n k cur :
  is_trailer cur = false ->
  take_free (S n) (S k) cur = cur :: take_free n k (cur + 1).
Proof. intros Ht. cbn [take_free]. now rewrite Ht. Qed.

Lemma plan_from_bounds maxb : forall plan cur,
  plan_from maxb cur plan ->
  Forall (fun a => cur <= a < maxb /\ is_trailer a = false) plan.
Proof.
  induction plan as [|a rest IH]; intros cur; [constructor|].
  cbn [plan_from]. intros (Ha & Hta & Hg & Hrest).
  constructor; [auto|].
  eapply Forall_impl; [|apply (IH _ Hrest)].
  cbn beta. intros b [Hb Htb]. split; [lia|assumption].
Qed.

Lemma plan_from_sorted maxb : forall plan cur,
  plan_from maxb cur plan -> StronglySorted Z.lt plan.
Proof.
  induction plan as [|a rest IH]; intros cur; [constructor|].
  cbn [plan_from]. intros (Ha & Hta & Hg & Hrest).
  constructor; [eauto|].
  eapply Forall_impl; [|apply (plan_from_bounds _ _ _ Hrest)].
  cbn beta. intros b [Hb _]. lia.
Qed.

Lemma trailer_next b : is_trailer b = true -> is_trailer (b + 1) = false.
Proof. unfold is_trailer. intros H. bool_cases; try discriminate; try reflexivity. arith. Qed.

Lemma effective_start_free b : is_trailer (effective_start b) = false.
Proof.
  unfold effective_start. destruct (is_trailer b) eqn:E; [|assumption].
  now apply trailer_next.
Qed.

Lemma effective_start_positive b : 1 <= b -> 1 <= effective_start b.
Proof. unfold effective_start. destruct (is_trailer b); lia. Qed.

End Allocation.

(** ** The block device *)
Section Block_device.

Lemma max_blocks_cases card :
  max_blocks card = 64 /\ is_4k card = false
  \/ max_blocks card = 256 /\ is_4k card = true.
Proof. unfold max_blocks. destruct (is_4k card); auto. Qed.

Lemma read_block_covered card b :
  covers card -> 0 <= b < max_blocks card ->
  read_block card b = Some (slice (dump card) (b * 16) (b * 16 + 16)).
Proof.
  unfold covers, read_block, read_card_raw. intros Hc Hb.
  destruct (max_blocks_cases card) as [[Hm ->]|[Hm ->]]; rewrite Hm in *;
    bool_cases; cbn [andb negb]; try lia; reflexivity.
Qed.

Lemma read_block_outside card b :
  ~ (0 <= b < max_blocks card) -> read_block card b = None.
Proof.
  unfold read_block. intros Hb.
  destruct (max_blocks_cases card) as [[Hm ->]|[Hm ->]]; rewrite Hm in *;
    bool_cases; cbn [andb negb]; try lia; reflexivity.
Qed.

Lemma written_covers card b data :
  covers card -> 0 <= b < max_blocks card -> len data = 16 ->
  covers (written card b data).
Proof.
  unfold covers, written, max_blocks. cbn [is_4k dump]. intros Hc Hb Hd.
  rewrite len_splice; try assumption; destruct (is_4k card); lia.
Qed.

Lemma read_written_same card b data :
  covers card -> 0 <= b < max_blocks card -> len data = 16 ->
  read_block (written card b data) b = Some data.
Proof.
  intros Hc Hb Hd. rewrite read_block_covered.
  - cbn [written dump].
    now rewrite slice_splice_same
      by (try assumption; unfold covers in Hc; lia).
  - now apply written_covers.
  - exact Hb.
Qed.

Lemma read_written_other card b b' data :
  covers card -> 0 <= b < max_blocks card -> len data = 16 -> b' <> b ->
  read_block (written card b data) b' = read_block card b'.
Proof.
  intros Hc Hb Hd Hne.
  assert (Hm : max_blocks (written card b data) = max_blocks card) by reflexivity.
  destruct (Z.lt_ge_cases b' 0) as [Hn|Hn];
    [rewrite !read_block_outside; [reflexivity|lia..]|].
  destruct (Z.lt_ge_cases b' (max_blocks card)) as [Hx|Hx];
    [|rewrite !read_block_outside; [reflexivity|lia..]].
  rewrite !read_block_covered; try (rewrite ?Hm; lia); try assumption;
    try (now apply written_covers).
  cbn [written dump].
  now rewrite slice_splice_other
    by (try assumption; unfold covers in Hc; lia).
Qed.

Lemma write_block_ok card b data :
  covers card -> transfer_ok card b = true -> 1 <= b < max_blocks card ->
  is_trailer b = false -> len data = 16 ->
  write_block card b data = (true, written card b data).
Proof.
  intros Hc Ht Hb Htr Hd.
  unfold write_block, read_card_raw, written. rewrite Hd, Ht, Htr.
  unfold covers in Hc.
  destruct (max_blocks_cases card) as [[Hm E4]|[Hm E4]]; rewrite Hm in *;
    rewrite E4 in *; bool_cases; cbn [andb negb]; try lia; reflexivity.
Qed.

(** A transfer to block 0 or to a block below it is refused before the
    tool is called. *)
Lemma write_block_low card b data :
  b <= 0 -> write_block card b data = (false, card).
Proof.
  intros Hb. unfold write_block.
  destruct (len data =? 16); cbn [negb]; [|reflexivity].
  destruct (is_4k card); bool_cases; cbn [andb negb]; try lia; reflexivity.
Qed.
End Block_device.

(** ** The write loop *)
Section Write_loop.

Lemma sorted_nth_inj (l : list Z) :
  StronglySorted Z.lt l ->
  forall i j b, nth_error l i = Some b -> nth_error l j = Some b -> i = j.
Proof.
  induction 1 as [|a l Hs IH Hall]; intros [|i] [|j] b Hi Hj;
    cbn [nth_error] in *; try discriminate; auto.
  - injection Hi as ->. apply nth_error_In in Hj.
    rewrite Forall_forall in Hall. specialize (Hall _ Hj). lia.
  - injection Hj as ->. apply nth_error_In in Hi.
    rewrite Forall_forall in Hall. specialize (Hall _ Hi). lia.
  - f_equal. eauto.
Qed.

Lemma len_chunk (data : list Z) i :
  (Z.of_nat i + 1) * 16 <= len data ->
  len (slice data (Z.of_nat i * 16) ((Z.of_nat i + 1) * 16)) = 16.
Proof.
  unfold len, slice; intros. rewrite length_firstn, length_skipn. lia.
Qed.

Lemma write_chunks_ok avail data maxb cur :
  plan_from maxb cur avail -> 1 <= cur ->
  forall m j card,
    max_blocks card = maxb -> covers card -> transfers_succeed card ->
    (j + m <= List.length avail)%nat -> Z.of_nat (j + m) * 16 <= len data ->
    exists card',
      write_chunks (seq j m) avail data card = (true, card')
      /\ is_4k card' = is_4k card /\ covers card'
      /\ transfer_ok card' = transfer_ok card
      /\ (forall i b, (j <= i < j + m)%nat -> nth_error avail i = Some b ->
            read_block card' b
            = Some (slice data (Z.of_nat i * 16) ((Z.of_nat i + 1) * 16)))
      /\ (forall b, (forall i, (j <= i < j + m)%nat -> nth_error avail i <> Some b) ->
            read_block card' b = read_block card b).
Proof.
  intros Hplan Hcur.
  pose proof (plan_from_bounds _ _ _ Hplan) as Hbounds.
  pose proof (plan_from_sorted _ _ _ Hplan) as Hsorted.
  rewrite Forall_forall in Hbounds.
  induction m as [|m IH]; intros j card Hmax Hcov Hok Hj Hdata.
  - exists card. cbn [seq write_chunks]. repeat split; auto. intros; lia.
  - cbn [seq write_chunks].
    destruct (nth_error avail j) as [b|] eqn:Eb;
      [|apply nth_error_None in Eb; lia].
    destruct (Hbounds b (nth_error_In _ _ Eb)) as [Hb Htb].
    assert (Hlen : len (slice data (Z.of_nat j * 16) ((Z.of_nat j + 1) * 16)) = 16)
      by (apply len_chunk; lia).
    rewrite write_block_ok; try assumption; try lia; [|apply Hok].
    set (card1 := written card b _).
    assert (Hcov1 : covers card1) by (apply written_covers; auto; lia).
    destruct (IH (S j) card1) as (card' & Hw & H4 & Hc' & Ht' & Hin & Hout);
      try assumption; try lia.
    exists card'. split; [exact Hw|]. split; [exact H4|]. split; [exact Hc'|].
    split; [exact Ht'|]. split.
    + intros i b' Hi Hb'. destruct (Nat.eq_dec i j) as [->|Hne].
      * assert (b' = b) by congruence. subst b'.
        rewrite Hout.
        -- apply read_written_same; auto; lia.
        -- intros i Hi' Hi''.
           pose proof (sorted_nth_inj _ Hsorted _ _ _ Hi'' Eb). lia.
      * apply Hin; [lia|assumption].
    + intros b' Hb'. rewrite Hout by (intros i Hi; apply Hb'; lia).
      apply read_written_other; auto; try lia.
      intros ->. apply (Hb' j); [lia|assumption].
Qed.

End Write_loop.

(** ** The collection loop of read_string *)
Section Read_loop.

Variable expired : nat -> bool.
Variable card : Card.
Variables (count maxb max_blocks_to_read : Z).

(** Whatever the loop does, the bytes it had stay at the front. *)
Lemma read_blocks_extends fuel : forall tick cur chars blocks raw,
  exists extra,
    read_blocks fuel expired card count maxb max_blocks_to_read tick cur chars
                blocks raw = raw ++ extra.
Proof.
  induction fuel as [|fuel IH]; intros tick cur chars blocks raw;
    cbn [read_blocks]; [exists []; now rewrite app_nil_r|].
  destruct (_ && _); [|exists []; now rewrite app_nil_r].
  destruct (expired tick); [exists []; now rewrite app_nil_r|].
  destruct (is_trailer cur); [apply IH|].
  destruct (read_block card cur) as [[|b0 bs]|];
    try (exists []; now rewrite app_nil_r).
  destruct (_ && _); [exists []; now rewrite app_nil_r|].
  destruct (_ >=? _); [eexists; reflexivity|].
  destruct (IH (S tick) (cur + 1)
               (len (Utf8.decode_ignore (raw ++ b0 :: bs))) (blocks + 1)
               (raw ++ b0 :: bs)) as [extra ->].
  exists ((b0 :: bs) ++ extra). now rewrite app_assoc.
Qed.

Hypothesis in_time : forall tick, expired tick = false.

Variables (text text_bytes : list Z) (pad : nat).
Hypothesis text_encoded : Utf8.encode text = Some text_bytes.
Hypothesis count_text : count = len text.
Hypothesis pad_small : (pad < 16)%nat.

(** A strict prefix of the record body holds fewer characters than the
    header announces. *)
Lemma short_prefix raw rest :
  raw ++ rest = text_bytes ++ repeat 0 pad -> (pad < List.length rest)%nat ->
  len (Utf8.decode_ignore raw) < count.
Proof.
  intros Heq Hrest.
  assert (Hl : (List.length raw < List.length text_bytes)%nat).
  { apply (f_equal (@List.length Z)) in Heq.
    rewrite !length_app, repeat_length in Heq. lia. }
  assert (raw = firstn (List.length raw) text_bytes) as ->.
  { apply (f_equal (firstn (List.length raw))) in Heq.
    rewrite firstn_app, Nat.sub_diag, firstn_all, firstn_O, app_nil_r in Heq.
    rewrite firstn_app in Heq.
    replace (List.length raw - List.length text_bytes)%nat with 0%nat in Heq
      by lia.
    now rewrite firstn_O, app_nil_r in Heq. }
  pose proof (Utf8Facts.decode_prefix_short text text_bytes _ text_encoded Hl).
  rewrite count_text. unfold len. lia.
Qed.

(** A prefix of the padded body that holds enough characters holds the whole
    encoded text. *)
Lemma long_prefix raw rest :
  raw ++ rest = text_bytes ++ repeat 0 pad ->
  count <= len (Utf8.decode_ignore raw) ->
  exists extra, raw = text_bytes ++ extra.
Proof.
  intros Heq Hc.
  destruct (Nat.lt_ge_cases (List.length raw) (List.length text_bytes)) as [Hl|Hl].
  - exfalso.
    assert (Hrest : (pad < List.length rest)%nat).
    { apply (f_equal (@List.length Z)) in Heq.
      rewrite !length_app, repeat_length in Heq. lia. }
    pose proof (short_prefix raw rest Heq Hrest). lia.
  - exists (firstn (List.length raw - List.length text_bytes) (repeat 0 pad)).
    apply (f_equal (firstn (List.length raw))) in Heq.
    rewrite firstn_app, Nat.sub_diag, firstn_all, firstn_O, app_nil_r in Heq.
    rewrite firstn_app, firstn_all2 in Heq by lia. exact Heq.
Qed.

(** The loop walks the planned blocks of a record and stops with the whole
    encoded text collected. *)
Lemma read_blocks_record fuel :
  forall rest rc raw tick cur chars blocks,
    maxb - cur <= Z.of_nat fuel ->
    plan_from maxb cur rest ->
    Forall2 (fun b ch => read_block card b = Some ch /\ len ch = 16) rest rc ->
    raw ++ concat rc = text_bytes ++ repeat 0 pad ->
    chars = 0 \/ chars = len (Utf8.decode_ignore raw) ->
    0 < count ->
    blocks + len rest <= max_blocks_to_read ->
    exists extra,
      read_blocks fuel expired card count maxb max_blocks_to_read tick cur
                  chars blocks raw = text_bytes ++ extra.
Proof.
  induction fuel as [|fuel IH];
    intros rest rc raw tick cur chars blocks Hfuel Hplan Hrc Hraw Hchars Hpos
           Hlimit.
  - destruct Hrc as [|a ch rest rc [Ha Hch] Hrc].
    + cbn [read_blocks]. cbn [concat] in Hraw. rewrite app_nil_r in Hraw.
      eexists. exact Hraw.
    + cbn [plan_from] in Hplan. lia.
  - destruct Hrc as [|a ch rest rc [Ha Hch] Hrc].
    + cbn [concat] in Hraw. rewrite app_nil_r in Hraw. subst raw.
      destruct (read_blocks_extends (S fuel) tick cur chars blocks
                  (text_bytes ++ repeat 0 pad)) as [extra ->].
      rewrite <- app_assoc. eexists. reflexivity.
    + cbn [plan_from] in Hplan. destruct Hplan as (Hcur & Hta & Hgap & Hplan).
      cbn [concat] in Hraw.
      assert (Hshort : len (Utf8.decode_ignore raw) < count).
      { apply (short_prefix raw (ch ++ concat rc) Hraw).
        rewrite length_app. unfold len in Hch. lia. }
      assert (Hlt : chars < count) by (destruct Hchars; lia).
      assert (Hr : 0 <= len rest) by apply len_nonneg.
      unfold len in Hlimit. cbn [List.length] in Hlimit.
      cbn [read_blocks].
      rewrite (proj2 (Z.ltb_lt chars count)) by lia.
      rewrite (proj2 (Z.ltb_lt cur maxb)) by lia.
      rewrite (proj2 (Z.ltb_lt blocks max_blocks_to_read)) by lia.
      cbn [andb]. rewrite in_time.
      destruct (is_trailer cur) eqn:Etc.
      * assert (cur <> a) by congruence.
        apply (IH (a :: rest) (ch :: rc)); auto; try lia.
        cbn [plan_from]. repeat split; auto; try lia.
        intros x Hx. apply Hgap. lia.
      * assert (cur = a) as ->.
        { destruct (Z.eq_dec cur a); [assumption|].
          rewrite Hgap in Etc by lia. discriminate. }
        rewrite Ha. destruct ch as [|c0 ch']; [discriminate|].
        rewrite Z.geb_leb.
        rewrite (proj2 (Z.leb_gt count (len (Utf8.decode_ignore raw)))) by lia.
        rewrite andb_false_r. rewrite Z.geb_leb.
        rewrite app_assoc in Hraw.
        destruct (Z.leb_spec count (len (Utf8.decode_ignore (raw ++ c0 :: ch'))))
          as [Hge|Hlt'].
        -- eapply long_prefix; eassumption.
        -- apply (IH rest rc); auto; try lia.
           unfold len in *. lia.
Qed.

End Read_loop.

(** ** The length header *)
Section Header.

Lemma lor_disjoint hi lo k :
  0 <= k -> 0 <= lo < 2 ^ k -> Z.lor (hi * 2 ^ k) lo = hi * 2 ^ k + lo.
Proof.
  intros Hk Hlo. rewrite <- Z.add_lor_land.
  assert (Z.land (hi * 2 ^ k) lo = 0) as ->; [|lia].
  apply Z.bits_inj'. intros i Hi. rewrite Z.land_spec, Z.bits_0.
  destruct (Z.lt_ge_cases i k).
  - now rewrite Z.mul_pow2_bits_low.
  - rewrite andb_false_iff. right.
    destruct (Z.eq_dec lo 0) as [->|]; [apply Z.bits_0|].
    apply Z.bits_above_log2; [lia|].
    apply Z.log2_lt_pow2; [lia|].
    apply Z.lt_le_trans with (2 ^ k); [lia|].
    apply Z.pow_le_mono_r; lia.
Qed.

Lemma big_endian_4 b0 b1 b2 b3 :
  0 <= b1 < 256 -> 0 <= b2 < 256 -> 0 <= b3 < 256 ->
  Z.lor (Z.lor (Z.lor (Z.shiftl b0 24) (Z.shiftl b1 16)) (Z.shiftl b2 8)) b3
  = b0 * 16777216 + b1 * 65536 + b2 * 256 + b3.
Proof.
  intros H1 H2 H3. rewrite !Z.shiftl_mul_pow2 by lia.
  rewrite (lor_disjoint b0 (b1 * 2 ^ 16) 24) by lia.
  replace (b0 * 2 ^ 24 + b1 * 2 ^ 16) with ((b0 * 256 + b1) * 2 ^ 16) by lia.
  rewrite (lor_disjoint _ (b2 * 2 ^ 8) 16) by lia.
  replace ((b0 * 256 + b1) * 2 ^ 16 + b2 * 2 ^ 8)
    with ((b0 * 65536 + b1 * 256 + b2) * 2 ^ 8) by lia.
  rewrite (lor_disjoint _ b3 8) by lia. lia.
Qed.

Lemma header_bytes_digits n :
  0 <= n ->
  header_bytes n
  = [(n / 16777216) mod 256; (n / 65536) mod 256; (n / 256) mod 256; n mod 256].
Proof.
  intros Hn. unfold header_bytes. change 0xFF with (Z.ones 8).
  rewrite !Z.land_ones, !Z.shiftr_div_pow2 by lia. reflexivity.
Qed.

(** The header reads back as the number it was made from. *)
Lemma length_4byte_header n rest :
  0 <= n < 4294967296 -> length_4byte (header_bytes n ++ rest) = n.
Proof.
  intros Hn. rewrite header_bytes_digits by lia.
  unfold length_4byte, byte_at. cbn [app nth].
  rewrite big_endian_4 by arith. arith.
Qed.

Lemma byte0_header n rest :
  0 <= n < 16777216 -> byte_at (header_bytes n ++ rest) 0 = 0.
Proof.
  intros Hn. rewrite header_bytes_digits by lia.
  unfold byte_at. cbn [app nth]. arith.
Qed.

End Header.

(** ** What write_string prepares and what the card holds afterwards *)
Section Stored_record.

Lemma firstn_plus {A} (a b : nat) : forall l : list A,
  firstn (a + b) l = firstn a l ++ firstn b (skipn a l).
Proof.
  induction a as [|a IH]; intros [|x l]; cbn [Nat.add firstn skipn app];
    try reflexivity.
  - now rewrite firstn_nil.
  - now rewrite IH.
Qed.

Lemma chunk_nat (data : list Z) i :
  slice data (Z.of_nat i * 16) ((Z.of_nat i + 1) * 16)
  = firstn 16 (skipn (16 * i) data).
Proof. unfold slice. f_equal; [lia|f_equal; lia]. Qed.

Lemma concat_chunks (data : list Z) m : forall j,
  concat (chunks data j m) = firstn (16 * m) (skipn (16 * j) data).
Proof.
  unfold chunks. induction m as [|m IH]; intros j; [reflexivity|].
  cbn [seq map concat]. rewrite IH, chunk_nat.
  replace (16 * S m)%nat with (16 + 16 * m)%nat by lia.
  rewrite firstn_plus, skipn_skipn. do 3 f_equal. lia.
Qed.

Lemma take_free_enough n : forall k cur,
  1 <= cur ->
  (k <= List.length (filter (fun b => negb (is_reserved b)) (block_range n cur)))%nat ->
  List.length (take_free n k cur) = k.
Proof.
  induction n as [|n IH]; intros k cur Hc Hk.
  - cbn [block_range filter List.length] in Hk.
    destruct k; [reflexivity|lia].
  - destruct k as [|k]; [reflexivity|].
    cbn [take_free block_range filter] in *. unfold is_reserved at 1 in Hk.
    destruct (Z.eqb_spec cur 0); [lia|]. cbn [orb] in Hk.
    destruct (is_trailer cur); cbn [negb] in Hk.
    + apply IH; [lia|assumption].
    + cbn [List.length] in *. f_equal. apply IH; lia.
Qed.

Lemma plan_from_length maxb : forall plan cur,
  plan_from maxb cur plan -> cur <= maxb -> len plan <= maxb - cur.
Proof.
  induction plan as [|a rest IH]; intros cur Hplan Hc.
  - unfold len. cbn [List.length]. lia.
  - cbn [plan_from] in Hplan. destruct Hplan as (Ha & _ & _ & Hrest).
    specialize (IH _ Hrest). unfold len in *. cbn [List.length]. lia.
Qed.

Lemma skipn_nth_cons {A} (l : list A) j b :
  nth_error l j = Some b -> skipn j l = b :: skipn (S j) l.
Proof.
  revert l; induction j as [|j IH]; intros [|x l] H; cbn [nth_error] in H;
    try discriminate.
  - now injection H as ->.
  - cbn [skipn]. now apply IH.
Qed.

Lemma stored_chunks {B} (P : Z -> B -> Prop) (f : nat -> B) (avail : list Z) m :
  forall j,
    (j + m = List.length avail)%nat ->
    (forall i b, (j <= i < j + m)%nat -> nth_error avail i = Some b -> P b (f i)) ->
    Forall2 P (skipn j avail) (map f (seq j m)).
Proof.
  induction m as [|m IH]; intros j Hj HP.
  - rewrite skipn_all2 by lia. constructor.
  - destruct (nth_error avail j) as [b|] eqn:Eb;
      [|apply nth_error_None in Eb; lia].
    rewrite (skipn_nth_cons _ _ _ Eb). cbn [seq map]. constructor.
    + apply HP; [lia|assumption].
    + apply IH; [lia|]. intros i b' Hi. apply HP. lia.
Qed.

Lemma prepare_prepared card start_block text max_length text_bytes :
  len text <= max_length -> start_block <> 0 ->
  Utf8.encode text = Some text_bytes ->
  prepare card start_block text max_length
  = Prepared (effective_start start_block)
             (record_bytes (len text) text_bytes)
             ((4 + len text_bytes + 15) / 16)
             (take_free (Z.to_nat (max_blocks card - effective_start start_block))
                        (Z.to_nat ((4 + len text_bytes + 15) / 16))
                        (effective_start start_block)).
Proof.
  intros Hlen Hstart Henc. unfold prepare.
  rewrite Z.gtb_ltb, (proj2 (Z.ltb_ge max_length (len text))) by lia.
  rewrite (proj2 (Z.eqb_neq start_block 0)) by assumption.
  rewrite Henc, padded_record, chunks_of_record.
  rewrite find_available_take_free by reflexivity.
  cbn [app]. change (len (@nil Z)) with 0. rewrite Z.sub_0_r. reflexivity.
Qed.

End Stored_record.

(** ** Reading a stored record back *)
Section Read_back.

Lemma read_string_found expired card start_block max_length block_data h :
  read_block card start_block = Some block_data -> block_data <> [] ->
  read_string_header block_data max_length = Some h ->
  char_count h <> 0 -> char_count h <= max_length ->
  read_string expired card start_block max_length
  = Some (firstn (Z.to_nat (char_count h))
                 (Utf8.decode_ignore
                    (collect expired card start_block block_data h))).
Proof.
  intros Hb Hne Hh H0 Hmax. unfold read_string. rewrite Hb.
  destruct block_data as [|b0 bs]; [congruence|]. rewrite Hh.
  rewrite (proj2 (Z.eqb_neq _ _) H0).
  now rewrite Z.gtb_ltb, (proj2 (Z.ltb_ge max_length (char_count h))) by lia.
Qed.

Lemma read_string_header_new n rest max_length :
  0 < n <= max_length -> n < 16777216 ->
  read_string_header (header_bytes n ++ rest) max_length
  = Some (mkHeader NewFormat n 4 4).
Proof.
  intros Hn Hs. unfold read_string_header.
  rewrite length_4byte_header, byte0_header by lia.
  rewrite (proj2 (Z.ltb_lt 0 n)), (proj2 (Z.leb_le n max_length)) by lia.
  reflexivity.
Qed.

Lemma first_chunk n body :
  (12 <= List.length body)%nat ->
  slice (header_bytes n ++ body) (Z.of_nat 0 * 16) ((Z.of_nat 0 + 1) * 16)
  = header_bytes n ++ firstn 12 body.
Proof. intros. rewrite chunk_nat. reflexivity. Qed.

Variable expired : nat -> bool.
Hypothesis in_time : forall tick, expired tick = false.

Variables (card : Card) (start_block max_length : Z).
Variables (text text_bytes : list Z).

Let count := len text.
Let body := text_bytes ++ repeat 0 (Z.to_nat ((- (4 + len text_bytes)) mod 16)).
Let blocks := Z.to_nat ((4 + len text_bytes + 15) / 16).
Let plan :=
  take_free (Z.to_nat (max_blocks card - start_block)) blocks start_block.

Hypothesis text_encoded : Utf8.encode text = Some text_bytes.
Hypothesis text_fits : 0 < len text <= max_length.
Hypothesis reader_limit : 4 + len text_bytes <= 16 * 33.
Hypothesis start_free : is_trailer start_block = false.
Hypothesis plan_complete : List.length plan = blocks.
Hypothesis stored :
  forall i b, (i < blocks)%nat -> nth_error plan i = Some b ->
    read_block card b
    = Some (slice (record_bytes count text_bytes)
                  (Z.of_nat i * 16) ((Z.of_nat i + 1) * 16)).

(** [read_string] returns the text of a record stored along the plan. *)
Lemma read_stored_record :
  read_string expired card start_block max_length = Some text.
Proof.
  pose proof (len_padded_body text_bytes) as Hbody. fold body blocks in Hbody.
  pose proof (len_nonneg text_bytes) as Hnn.
  pose proof (Utf8Facts.encode_length _ _ text_encoded) as Hel.
  assert (Hblocks : exists k', blocks = S k') .
  { destruct blocks eqn:Eb; [|eauto]. unfold blocks in Eb. exfalso. arith. }
  destruct Hblocks as [k' Hk'].
  assert (Hk32 : (k' <= 32)%nat) by (unfold blocks in Hk'; arith).
  assert (Hn : exists n', Z.to_nat (max_blocks card - start_block) = S n').
  { destruct (Nat.eq_dec (Z.to_nat (max_blocks card - start_block)) 0) as [E0|E0].
    - exfalso. unfold plan in plan_complete. rewrite E0 in plan_complete.
      cbn [take_free List.length] in plan_complete. lia.
    - exists (Nat.pred (Z.to_nat (max_blocks card - start_block))). lia. }
  destruct Hn as [n' En].
  assert (Hplan : plan = start_block :: take_free n' k' (start_block + 1)).
  { unfold plan. rewrite En, Hk'. now apply take_free_head. }
  assert (Hrec : record_bytes count text_bytes = header_bytes count ++ body).
  { reflexivity. }
  assert (Hfirst : read_block card start_block
                   = Some (header_bytes count ++ firstn 12 body)).
  { rewrite (stored 0%nat start_block); [|lia|now rewrite Hplan].
    rewrite Hrec, first_chunk; [reflexivity|]. unfold len in Hbody. lia. }
  rewrite (read_string_found _ _ _ _ _ (mkHeader NewFormat count 4 4) Hfirst).
  2: { unfold header_bytes. discriminate. }
  2: { apply read_string_header_new; unfold count, len in *; lia. }
  2: { cbn [char_count]. unfold count. lia. }
  2: { cbn [char_count]. unfold count. lia. }
  cbn [char_count]. unfold collect. cbn [header_size data_start char_count].
  set (raw0 := slice _ 4 _).
  assert (Hraw0 : raw0 = firstn 12 body).
  { unfold raw0, slice. change (Z.to_nat (4 + (16 - 4) - 4)) with 12%nat.
    change (Z.to_nat 4) with (List.length (header_bytes count)).
    rewrite skipn_app, skipn_all, Nat.sub_diag. cbn [app skipn].
    now rewrite firstn_firstn. }
  destruct (read_blocks_record expired card count (max_blocks card)
              (Z.min 32 (max_blocks card - start_block)) in_time text text_bytes
              (Z.to_nat ((- (4 + len text_bytes)) mod 16)) text_encoded eq_refl
              ltac:(arith)
              (Z.to_nat (max_blocks card - (start_block + 1)))
              (take_free n' k' (start_block + 1))
              (chunks (record_bytes count text_bytes) 1 k')
              raw0 0%nat (start_block + 1) 0 0) as [extra Hextra].
  - lia.
  - pose proof (take_free_plan n' k' (start_block + 1)) as Hp.
    replace (start_block + 1 + Z.of_nat n') with (max_blocks card) in Hp by lia.
    exact Hp.
  - replace (take_free n' k' (start_block + 1)) with (skipn 1 plan)
      by now rewrite Hplan.
    apply stored_chunks; [lia|].
    intros i b Hi Hb. split; [apply stored; [lia|assumption]|].
    apply len_chunk. rewrite len_record. unfold blocks in Hk'. arith.
  - rewrite concat_chunks, Hrec, Hraw0.
    change (16 * 1)%nat with (12 + List.length (header_bytes count))%nat.
    rewrite <- skipn_skipn, skipn_app, skipn_all, Nat.sub_diag.
    cbn [app]. change (skipn 0 body) with body.
    rewrite <- firstn_plus. apply firstn_all2. fold body.
    unfold len in Hbody. lia.
  - left; reflexivity.
  - unfold count; lia.
  - pose proof (take_free_plan n' k' (start_block + 1)) as Hp.
    apply plan_from_length in Hp; [|lia].
    assert (Hlen : List.length (take_free n' k' (start_block + 1)) = k').
    { rewrite Hplan in plan_complete. cbn [List.length] in plan_complete. lia. }
    unfold len in *. lia.
  - rewrite Hextra, (Utf8Facts.decode_encode text) by assumption.
    unfold count, len. rewrite Nat2Z.id, firstn_app, firstn_all, Nat.sub_diag.
    cbn [firstn]. now rewrite app_nil_r.
Qed.

End Read_back.

(** ** What write_string leaves on the card *)
Section Write_string.

Variables (card : Card) (start_block max_length : Z).
Variables (text text_bytes : list Z).

Let first := effective_start start_block.
Let blocks := Z.to_nat ((4 + len text_bytes + 15) / 16).
Let plan := take_free (Z.to_nat (max_blocks card - first)) blocks first.

Hypothesis card_covered : covers card.
Hypothesis card_writable : transfers_succeed card.
Hypothesis text_encoded : Utf8.encode text = Some text_bytes.
Hypothesis text_fits : len text <= max_length.
Hypothesis start_valid : 1 <= start_block.
Hypothesis enough_blocks :
  (4 + len text_bytes + 15) / 16 <= len (free_blocks card first).

Lemma plan_length : List.length plan = blocks.
Proof.
  unfold plan. apply take_free_enough;
    [apply effective_start_positive, start_valid|].
  unfold free_blocks, len in enough_blocks. unfold blocks, len. lia.
Qed.

Lemma first_in_range : first < max_blocks card.
Proof.
  pose proof plan_length as Hl.
  destruct (blocks_needed_positive text_bytes) as [k' Hb]. fold blocks in Hb.
  destruct (Z.lt_ge_cases first (max_blocks card)); [assumption|].
  unfold plan in Hl.
  replace (Z.to_nat (max_blocks card - first)) with 0%nat in Hl by lia.
  cbn [take_free List.length] in Hl. lia.
Qed.

Lemma plan_is_plan : plan_from (max_blocks card) first plan.
Proof.
  pose proof first_in_range.
  pose proof (take_free_plan (Z.to_nat (max_blocks card - first)) blocks first)
    as Hp.
  now replace (first + Z.of_nat (Z.to_nat (max_blocks card - first)))
    with (max_blocks card) in Hp by lia.
Qed.

(** [write_string] succeeds; afterwards every planned block holds its chunk
    of the record and every other block is as it was. *)
Lemma write_string_stores :
  exists card',
    write_string card start_block text max_length = (Returned true, card')
    /\ is_4k card' = is_4k card /\ covers card'
    /\ (forall i b, (i < blocks)%nat -> nth_error plan i = Some b ->
          read_block card' b
          = Some (slice (record_bytes (len text) text_bytes)
                        (Z.of_nat i * 16) ((Z.of_nat i + 1) * 16)))
    /\ (forall b, ~ In b plan -> read_block card' b = read_block card b).
Proof.
  pose proof plan_length as Hl. pose proof (len_nonneg text_bytes) as Hnn.
  destruct (write_chunks_ok plan (record_bytes (len text) text_bytes)
              (max_blocks card) first plan_is_plan
              (effective_start_positive _ start_valid)
              blocks 0%nat card eq_refl card_covered card_writable)
    as (card' & Hw & H4 & Hc & _ & Hin & Hout).
  { lia. }
  { rewrite len_record. unfold blocks. arith. }
  exists card'. unfold write_string.
  rewrite (prepare_prepared _ _ _ _ text_bytes) by (assumption || lia).
  fold first. fold blocks. fold plan.
  assert (Hge : (4 + len text_bytes + 15) / 16 <= len plan).
  { unfold len at 2. rewrite Hl. unfold blocks. lia. }
  rewrite (proj2 (Z.ltb_ge (len plan) _) Hge).
  fold blocks. rewrite Hw. repeat split; try assumption.
  - intros i b Hi Hb. apply Hin; [lia|assumption].
  - intros b Hb. apply Hout. intros i Hi Hnth.
    apply Hb. eapply nth_error_In. eassumption.
Qed.

End Write_string.

(** ** Writing, then reading *)
Section Write_then_read.

Lemma effective_start_id b : is_trailer b = false -> effective_start b = b.
Proof. unfold effective_start. now intros ->. Qed.

Lemma effective_start_trailer b : is_trailer b = true -> effective_start b = b + 1.
Proof. unfold effective_start. now intros ->. Qed.

Lemma free_blocks_trailer card b :
  is_trailer b = true -> free_blocks card b = free_blocks card (b + 1).
Proof.
  intros Ht. unfold free_blocks.
  destruct (Z.lt_ge_cases b (max_blocks card)) as [Hlt|Hge].
  - replace (Z.to_nat (max_blocks card - b))
      with (S (Z.to_nat (max_blocks card - (b + 1)))) by lia.
    cbn [block_range filter]. unfold is_reserved at 1. rewrite Ht.
    now rewrite orb_true_r.
  - replace (Z.to_nat (max_blocks card - b)) with 0%nat by lia.
    replace (Z.to_nat (max_blocks card - (b + 1))) with 0%nat by lia.
    reflexivity.
Qed.

Lemma free_blocks_effective card b :
  free_blocks card (effective_start b) = free_blocks card b.
Proof.
  unfold effective_start. destruct (is_trailer b) eqn:Ht; [|reflexivity].
  symmetry. now apply free_blocks_trailer.
Qed.

Lemma in_plan_from maxb : forall plan cur b,
  plan_from maxb cur plan -> In b plan -> cur <= b.
Proof.
  intros plan cur b Hp Hin. apply plan_from_bounds in Hp.
  rewrite Forall_forall in Hp. apply Hp in Hin. lia.
Qed.

(** After a successful [write_string] the record starts at the effective
    start block, the blocks before it are untouched, and [read_string]
    from the effective start block returns the text when the reader's limits
    allow for it. *)
Lemma write_then_read expired card start_block max_length text text_bytes :
  covers card -> transfers_succeed card ->
  Utf8.encode text = Some text_bytes ->
  len text <= max_length -> 1 <= start_block ->
  (4 + len text_bytes + 15) / 16 <= len (free_blocks card start_block) ->
  exists card',
    write_string card start_block text max_length = (Returned true, card')
    /\ (forall b, b < effective_start start_block ->
          read_block card' b = read_block card b)
    /\ read_block card' (effective_start start_block)
       = Some (slice (record_bytes (len text) text_bytes) 0 16)
    /\ ((forall tick, expired tick = false) -> 0 < len text ->
        4 + len text_bytes <= 16 * 33 ->
        read_string expired card' (effective_start start_block) max_length
        = Some text).
Proof.
  intros Hcov Hok Henc Hlen Hstart Hfree.
  rewrite <- free_blocks_effective in Hfree.
  destruct (write_string_stores card start_block max_length text text_bytes
              Hcov Hok Henc Hlen Hstart Hfree)
    as (card' & Hw & H4 & Hc' & Hin & Hout).
  pose proof (plan_is_plan card start_block text_bytes Hstart Hfree) as Hp.
  pose proof (plan_length card start_block text_bytes Hstart Hfree) as Hl.
  pose proof (effective_start_free start_block) as Hfirst.
  assert (Hm : max_blocks card' = max_blocks card)
    by (unfold max_blocks; now rewrite H4).
  exists card'. split; [exact Hw|]. split; [|split].
  - intros b Hb. apply Hout. intros Hinb.
    pose proof (in_plan_from _ _ _ _ Hp Hinb). lia.
  - assert (Hb : (1 <= Z.to_nat ((4 + len text_bytes + 15) / 16))%nat)
      by (pose proof (len_nonneg text_bytes); arith).
    apply (Hin 0%nat); [lia|].
    destruct (Z.to_nat ((4 + len text_bytes + 15) / 16)) as [|k'] eqn:Ek; [lia|].
    destruct (Z.to_nat (max_blocks card - effective_start start_block))
      as [|n'] eqn:En.
    + cbn [take_free List.length] in Hl. lia.
    + now rewrite take_free_head.
  - intros Htime Hpos Hlimit.
    apply (read_stored_record expired Htime card' _ max_length text text_bytes);
      try assumption; try lia; rewrite Hm; assumption.
Qed.

End Write_then_read.

(** ** The loops run to their end

    The three loops are given as many rounds as they can make; with more
    rounds to spend they return the same. *)
Section Loops.

Lemma pad_to_block_full data : len (pad_to_block data) mod 16 = 0.
Proof.
  rewrite pad_to_block_spec, len_app, len_repeat.
  pose proof (len_nonneg data). arith.
Qed.

Lemma pad_loop_more fuel data :
  (15 <= fuel)%nat -> pad_loop fuel data = pad_to_block data.
Proof.
  intros Hf. rewrite pad_to_block_spec. apply pad_loop_spec. arith.
Qed.

Lemma find_available_more chunks_needed maxb extra :
  forall fuel current_block available_blocks,
    (Z.to_nat (maxb - current_block) <= fuel)%nat ->
    find_available (fuel + extra) chunks_needed maxb current_block
                   available_blocks
    = find_available fuel chunks_needed maxb current_block available_blocks.
Proof.
  induction fuel as [|fuel IH]; intros cur avail Hf.
  - destruct extra as [|extra]; [reflexivity|]. cbn [Nat.add find_available].
    rewrite (proj2 (Z.ltb_ge cur maxb)) by lia. now rewrite andb_false_r.
  - cbn [Nat.add find_available].
    destruct ((len avail <? chunks_needed) && (cur <? maxb)); [|reflexivity].
    destruct (is_trailer cur); apply IH; lia.
Qed.

Lemma read_blocks_more expired card count maxb max_blocks_to_read extra :
  forall fuel tick current_block chars_decoded blocks_read raw_bytes,
    (Z.to_nat (maxb - current_block) <= fuel)%nat ->
    read_blocks (fuel + extra) expired card count maxb max_blocks_to_read tick
                current_block chars_decoded blocks_read raw_bytes
    = read_blocks fuel expired card count maxb max_blocks_to_read tick
                  current_block chars_decoded blocks_read raw_bytes.
Proof.
  induction fuel as [|fuel IH]; intros tick cur chars blocks raw Hf.
  - destruct extra as [|extra]; [reflexivity|]. cbn [Nat.add read_blocks].
    rewrite (proj2 (Z.ltb_ge cur maxb)) by lia.
    now rewrite andb_false_r.
  - cbn [Nat.add read_blocks].
    destruct (((chars <? count) && (cur <? maxb))
              && (blocks <? max_blocks_to_read)); [|reflexivity].
    destruct (expired tick); [reflexivity|].
    destruct (is_trailer cur); [apply IH; lia|].
    destruct (read_block card cur) as [[|b0 bs]|]; try reflexivity.
    destruct (_ && _); [reflexivity|].
    destruct (_ >=? _); [reflexivity|]. apply IH. lia.
Qed.

End Loops.

(** ** Case analyses of the two operations *)
Section Cases.

(** What [prepare] returns once the text is accepted and encoded. *)
Lemma prepare_cases card start_block text max_length :
  prepare card start_block text max_length = TooLong /\ max_length < len text
  \/ prepare card start_block text max_length = InvalidStart /\ start_block = 0
  \/ prepare card start_block text max_length = EncodeError
     /\ Utf8.encode text = None
  \/ exists text_bytes,
       Utf8.encode text = Some text_bytes
       /\ len text <= max_length /\ start_block <> 0
       /\ prepare card start_block text max_length
          = Prepared (effective_start start_block)
                     (record_bytes (len text) text_bytes)
                     ((4 + len text_bytes + 15) / 16)
                     (take_free
                        (Z.to_nat (max_blocks card - effective_start start_block))
                        (Z.to_nat ((4 + len text_bytes + 15) / 16))
                        (effective_start start_block)).
Proof.
  destruct (Z.lt_ge_cases max_length (len text)) as [Hl|Hl].
  { left. split; [|assumption]. unfold prepare.
    now rewrite Z.gtb_ltb, (proj2 (Z.ltb_lt _ _) Hl). }
  destruct (Z.eq_dec start_block 0) as [H0|H0].
  { right; left. split; [|assumption]. unfold prepare.
    rewrite Z.gtb_ltb, (proj2 (Z.ltb_ge _ _)) by lia.
    now rewrite (proj2 (Z.eqb_eq _ _) H0). }
  destruct (Utf8.encode text) as [text_bytes|] eqn:Henc.
  - right; right; right. exists text_bytes. repeat split; try assumption; try lia.
    apply prepare_prepared; assumption || lia.
  - right; right; left. split; [|reflexivity]. unfold prepare.
    rewrite Z.gtb_ltb, (proj2 (Z.ltb_ge _ _)) by lia.
    now rewrite (proj2 (Z.eqb_neq _ _) H0), Henc.
Qed.

Lemma plan_from_gapless maxb : forall plan cur i x,
  plan_from maxb cur plan -> In i plan -> cur <= x < i ->
  In x plan \/ is_trailer x = true.
Proof.
  induction plan as [|a rest IH]; intros cur i x Hp Hi Hx; [destruct Hi|].
  cbn [plan_from] in Hp. destruct Hp as (Ha & Hta & Hgap & Hrest).
  destruct (Z.lt_ge_cases x a) as [Hlt|Hge]; [right; apply Hgap; lia|].
  destruct (Z.eq_dec x a) as [->|Hne]; [left; now left|].
  destruct Hi as [->|Hi]; [lia|].
  destruct (IH (a + 1) i x Hrest Hi ltac:(lia)) as [Hin|Ht]; [left; now right|].
  now right.
Qed.

Lemma read_string_no_header expired card start_block max_length block_data :
  read_block card start_block = Some block_data ->
  read_string_header block_data max_length = None ->
  read_string expired card start_block max_length = None.
Proof.
  intros Hb Hh. unfold read_string. rewrite Hb.
  destruct block_data; [reflexivity|]. now rewrite Hh.
Qed.

Lemma read_string_result expired card start_block max_length result :
  read_string expired card start_block max_length = Some result ->
  exists block_data h,
    read_block card start_block = Some block_data
    /\ read_string_header block_data max_length = Some h
    /\ result
       = firstn (Z.to_nat (char_count h))
                (Utf8.decode_ignore
                   (collect expired card start_block block_data h)).
Proof.
  unfold read_string.
  destruct (read_block card start_block) as [[|b0 bs]|] eqn:Hb;
    try discriminate.
  destruct (read_string_header (b0 :: bs) max_length) as [h|] eqn:Hh;
    [|discriminate].
  intros H. exists (b0 :: bs), h. split; [reflexivity|]. split; [exact Hh|].
  destruct (Z.eqb_spec (char_count h) 0) as [E|E].
  - injection H as <-. now rewrite E.
  - destruct (char_count h >? max_length); [discriminate|]. now injection H.
Qed.

End Cases.

(** * The properties of the specification *)




(** X18.  Reserved-block exclusion where it holds: whatever [write_string]
    plans, no planned block is a trailer; the planned blocks are at or
    after the start block, below the block count of the card, and strictly
    increasing; every block the plan passes over on its way is a trailer;
    and for a start block that is a block number (not negative) no planned
    block is block 0. *)
Theorem planned_blocks_not_reserved
        card start_block text max_length first data chunks_needed available_blocks :
  prepare card start_block text max_length
  = Prepared first data chunks_needed available_blocks ->
  Forall (fun i => (i + 1) mod 4 <> 0 /\ start_block <= i < max_blocks card)
         available_blocks
  /\ StronglySorted Z.lt available_blocks
  /\ (forall i x, In i available_blocks -> start_block <= x < i ->
        In x available_blocks \/ (x + 1) mod 4 = 0)
  /\ (0 <= start_block -> Forall (fun i => i <> 0) available_blocks).
Proof.
  intros Hprep.
  destruct (prepare_cases card start_block text max_length)
    as [[E _]|[[E _]|[[E _]|(text_bytes & _ & _ & Hstart & E)]]];
    rewrite E in Hprep; try discriminate.
  injection Hprep as <- <- <- <-.
  set (s := effective_start start_block).
  assert (Hs : start_block <= s)
    by (unfold s, effective_start; destruct (is_trailer start_block); lia).
  pose proof (take_free_plan (Z.to_nat (max_blocks card - s))
                (Z.to_nat ((4 + len text_bytes + 15) / 16)) s) as Hp.
  pose proof (plan_from_bounds _ _ _ Hp) as Hb.
  split; [|split; [eapply plan_from_sorted; exact Hp|split]].
  - eapply Forall_impl; [|exact Hb].
    cbn beta. intros i [Hi Ht]. unfold is_trailer in Ht.
    apply Z.eqb_neq in Ht. split; [assumption|lia].
  - intros i x Hi Hx. destruct (Z.lt_ge_cases x s) as [Hlt|Hge].
    + right. unfold s, effective_start in Hlt.
      destruct (is_trailer start_block) eqn:Et; [|lia].
      assert (x = start_block) as -> by lia.
      unfold is_trailer in Et. now apply Z.eqb_eq in Et.
    + destruct (plan_from_gapless _ _ s i x Hp Hi ltac:(lia)) as [Hin|Ht];
        [now left|right].
      unfold is_trailer in Ht. now apply Z.eqb_eq in Ht.
  - intros Hnonneg. eapply Forall_impl; [|exact Hb].
    cbn beta. intros i [Hi _]. lia.
Qed.

Lemma planned_blocks_not_reserved_witness :
  Forall (fun i => (i + 1) mod 4 <> 0 /\ 1 <= i < max_blocks blank_1k)
         [1; 2; 4; 5; 6; 8; 9; 10; 12; 13; 14; 16; 17; 18; 20; 21; 22; 24; 25]
  /\ StronglySorted Z.lt
       [1; 2; 4; 5; 6; 8; 9; 10; 12; 13; 14; 16; 17; 18; 20; 21; 22; 24; 25]
  /\ (forall i x,
        In i [1; 2; 4; 5; 6; 8; 9; 10; 12; 13; 14; 16; 17; 18; 20; 21; 22; 24; 25] ->
        1 <= x < i ->
        In x [1; 2; 4; 5; 6; 8; 9; 10; 12; 13; 14; 16; 17; 18; 20; 21; 22; 24; 25]
        \/ (x + 1) mod 4 = 0)
  /\ (0 <= 1 ->
      Forall (fun i => i <> 0)
        [1; 2; 4; 5; 6; 8; 9; 10; 12; 13; 14; 16; 17; 18; 20; 21; 22; 24; 25]).
Proof.
  apply (planned_blocks_not_reserved blank_1k 1 (repeat 97 300) 3000 1
           (record_bytes 300 (repeat 97 300)) 19).
  vm_compute. reflexivity.
Defined.

(** C3.  The empty string: at every valid start block [write_string]
    makes one transfer, of a block of sixteen zero bytes (header value 0 and
    zero padding); [read_string] from that block then finds no valid header
    and returns None, not the empty string. *)
Theorem empty_string_is_not_read_back expired card b max_length read_max :
  covers card -> transfers_succeed card ->
  1 <= b < max_blocks card -> is_trailer b = false -> 0 <= max_length ->
  write_string card b [] max_length
  = (Returned true, written card b (repeat 0 16))
  /\ transfers (written card b (repeat 0 16))
     = transfers card ++ [(b, repeat 0 16)]
  /\ length_4byte (repeat 0 16) = 0
  /\ read_string expired (written card b (repeat 0 16)) b read_max = None.
Proof.
  intros Hcov Hok Hb Ht Hmax. repeat split.
  - unfold write_string.
    rewrite (prepare_prepared card b [] max_length []);
      [|assumption|lia|reflexivity].
    rewrite (effective_start_id _ Ht).
    replace (Z.to_nat (max_blocks card - b))
      with (S (Z.to_nat (max_blocks card - b - 1))) by lia.
    change (Z.to_nat ((4 + len (@nil Z) + 15) / 16)) with 1%nat.
    rewrite take_free_head by assumption.
    replace (take_free _ 0 _) with (@nil Z) by (now destruct (Z.to_nat _)).
    change (record_bytes (len (@nil Z)) []) with (repeat 0 16).
    change ((4 + len (@nil Z) + 15) / 16) with 1.
    change (len [b] <? 1) with false. cbv iota.
    change (Z.to_nat 1) with 1%nat. cbn [seq write_chunks nth_error].
    change (slice (repeat 0 16) (Z.of_nat 0 * 16) ((Z.of_nat 0 + 1) * 16))
      with (repeat 0 16).
    now rewrite write_block_ok by (try apply Hok; try assumption; reflexivity).
  - eapply read_string_no_header.
    + apply read_written_same; [assumption|lia|reflexivity].
    + reflexivity.
Qed.

Lemma empty_string_is_not_read_back_witness :
  write_string blank_1k 4 [] 3000
  = (Returned true, written blank_1k 4 (repeat 0 16))
  /\ transfers (written blank_1k 4 (repeat 0 16)) = [] ++ [(4, repeat 0 16)]
  /\ length_4byte (repeat 0 16) = 0
  /\ read_string never (written blank_1k 4 (repeat 0 16)) 4 3000 = None.
Proof.
  apply (empty_string_is_not_read_back never blank_1k 4 3000 3000).
  - unfold covers. vm_compute. discriminate.
  - intros b. reflexivity.
  - split; [lia|reflexivity].
  - reflexivity.
  - lia.
Defined.

(** C4 (as amended).  "Hello, world!" at block 4 of a 64-block card: the
    header bytes are 00 00 00 0D; header and payload are 17 bytes, padded
    with 15 zero bytes to 32 bytes, that is two blocks; the allocation plan
    is [4; 5]; decoding from block 4 returns "Hello, world!". *)
Theorem hello_world_scenario expired card :
  is_4k card = false -> covers card -> transfers_succeed card ->
  (forall tick, expired tick = false) ->
  Utf8.encode hello = Some hello
  /\ len hello = 13
  /\ prepare card 4 hello 3000
     = Prepared 4 ([0; 0; 0; 13] ++ hello ++ repeat 0 15) 2 [4; 5]
  /\ exists card',
       write_string card 4 hello 3000 = (Returned true, card')
       /\ read_string expired card' 4 3000 = Some hello.
Proof.
  intros H4 Hcov Hok Htime.
  split; [reflexivity|]. split; [reflexivity|]. split.
  - unfold prepare, max_blocks. rewrite H4. vm_compute. reflexivity.
  - destruct (write_then_read expired card 4 3000 hello hello Hcov Hok eq_refl)
      as (card' & Hw & _ & _ & Hread).
    + vm_compute. discriminate.
    + lia.
    + unfold free_blocks, max_blocks. rewrite H4. vm_compute. discriminate.
    + exists card'. split; [exact Hw|].
      apply Hread; [assumption|reflexivity|vm_compute; discriminate].
Qed.

Lemma hello_world_scenario_witness :
  Utf8.encode hello = Some hello
  /\ len hello = 13
  /\ prepare blank_1k 4 hello 3000
     = Prepared 4 ([0; 0; 0; 13] ++ hello ++ repeat 0 15) 2 [4; 5]
  /\ exists card',
       write_string blank_1k 4 hello 3000 = (Returned true, card')
       /\ read_string never card' 4 3000 = Some hello.
Proof.
  apply (hello_world_scenario never blank_1k).
  - reflexivity.
  - unfold covers. vm_compute. discriminate.
  - intros b. reflexivity.
  - intros tick. reflexivity.
Defined.

(** C4 (counterexample).  The record of "Hello, world!" is 32 bytes long and
    its plan is [4; 5], not the single block [4]. *)
Lemma hello_world_needs_two_blocks :
  exists data chunks_needed plan,
    prepare blank_1k 4 hello 3000 = Prepared 4 data chunks_needed plan
    /\ len data = 32 /\ chunks_needed = 2 /\ plan = [4; 5] /\ plan <> [4].
Proof.
  do 3 eexists. split; [vm_compute; reflexivity|].
  repeat split; discriminate.
Qed.

(** C5.  Character-count header: the first four bytes of every record
    [write_string] prepares are the big-endian character count of the text
    (its length in characters, which the header reads back), not its UTF-8
    byte count; whatever [read_string] returns is the decoded bytes cut to
    the character count of the header, exactly that many characters when
    enough were decoded; a record written within the limits of the round
    trip has the character count of its text in the first four bytes of its
    first block and is read back with that many characters; and a
    five-character string of eight UTF-8 bytes is
    stored with header value 5 and read back as its five characters, cut
    from the nine characters that the collected bytes decode to. *)
Theorem header_stores_character_count :
  (forall card start_block text max_length first data chunks_needed plan,
      prepare card start_block text max_length
      = Prepared first data chunks_needed plan ->
      firstn 4 data = header_bytes (len text)
      /\ (len text < 4294967296 -> length_4byte data = len text))
  /\ (forall expired card start_block max_length result,
         read_string expired card start_block max_length = Some result ->
         exists block_data h,
           read_block card start_block = Some block_data
           /\ read_string_header block_data max_length = Some h
           /\ result
              = firstn (Z.to_nat (char_count h))
                       (Utf8.decode_ignore
                          (collect expired card start_block block_data h))
           /\ len result <= Z.max 0 (char_count h)
           /\ (0 <= char_count h
               <= len (Utf8.decode_ignore
                         (collect expired card start_block block_data h)) ->
               len result = char_count h))
  /\ (forall expired card start_block max_length text text_bytes,
         covers card -> transfers_succeed card ->
         (forall tick, expired tick = false) ->
         Utf8.encode text = Some text_bytes ->
         0 < len text <= max_length -> 4 + len text_bytes <= 16 * 33 ->
         1 <= start_block -> is_reserved start_block = false ->
         (4 + len text_bytes + 15) / 16 <= len (free_blocks card start_block) ->
         exists card' block_data result,
           write_string card start_block text max_length = (Returned true, card')
           /\ read_block card' start_block = Some block_data
           /\ length_4byte block_data = len text
           /\ read_string expired card' start_block max_length = Some result
           /\ len result = len text)
  /\ (len euro_text = 5
      /\ option_map len (Utf8.encode euro_text) = Some 8
      /\ exists card' block_data,
           write_string blank_1k 4 euro_text 3000 = (Returned true, card')
           /\ read_block card' 4 = Some block_data
           /\ length_4byte block_data = 5
           /\ len (Utf8.decode_ignore
                      (collect never card' 4 block_data
                               (mkHeader NewFormat 5 4 4))) = 9
           /\ read_string never card' 4 3000 = Some euro_text).
Proof.
  split; [|split; [|split]].
  - intros card start_block text max_length first data k plan Hprep.
    destruct (prepare_cases card start_block text max_length)
      as [[E _]|[[E _]|[[E _]|(text_bytes & _ & _ & _ & E)]]];
      rewrite E in Hprep; try discriminate.
    injection Hprep as <- <- <- <-. split; [reflexivity|].
    intros Hlt. unfold record_bytes. apply length_4byte_header.
    pose proof (len_nonneg text). lia.
  - intros expired card start_block max_length result H.
    destruct (read_string_result _ _ _ _ _ H) as (blk & h & Hb & Hh & ->).
    exists blk, h. repeat split; try assumption.
    + unfold len. rewrite length_firstn. lia.
    + intros Hc. unfold len in *. rewrite length_firstn. lia.
  - intros expired card start_block max_length text text_bytes
           Hcov Hok Htime Henc Hlen Hlimit Hstart Hres Hfree.
    assert (Ht : is_trailer start_block = false).
    { unfold is_reserved in Hres. now apply orb_false_iff in Hres. }
    destruct (write_then_read expired card start_block max_length text
                text_bytes Hcov Hok Henc ltac:(lia) Hstart Hfree)
      as (card' & Hw & _ & Hfirst & Hread).
    rewrite (effective_start_id _ Ht) in *.
    exists card', (slice (record_bytes (len text) text_bytes) 0 16), text.
    split; [exact Hw|]. split; [exact Hfirst|]. split; [|split].
    + pose proof (len_padded_body text_bytes) as Hbody.
      pose proof (len_nonneg text_bytes) as Hnn.
      pose proof (Utf8Facts.encode_length _ _ Henc) as Hel.
      unfold record_bytes.
      change (slice ?l 0 16)
        with (slice l (Z.of_nat 0 * 16) ((Z.of_nat 0 + 1) * 16)).
      rewrite first_chunk by (unfold len in *; arith).
      apply length_4byte_header. unfold len in *. lia.
    + apply Hread; [assumption|lia..].
    + reflexivity.
  - split; [reflexivity|]. split; [reflexivity|].
    exists (snd (write_string blank_1k 4 euro_text 3000)).
    eexists. split; [vm_compute; reflexivity|].
    split; [vm_compute; reflexivity|].
    repeat split; vm_compute; reflexivity.
Qed.

Lemma header_stores_character_count_witness :
  firstn 4 ([0; 0; 0; 5; 226; 130; 172; 195; 188; 97; 98; 99; 0; 0; 0; 0])
  = header_bytes (len euro_text)
  /\ (len euro_text < 4294967296 ->
      length_4byte [0; 0; 0; 5; 226; 130; 172; 195; 188; 97; 98; 99; 0; 0; 0; 0]
      = len euro_text).
Proof.
  apply (proj1 header_stores_character_count blank_1k 4 euro_text 3000 4
               [0; 0; 0; 5; 226; 130; 172; 195; 188; 97; 98; 99; 0; 0; 0; 0]
               1 [4]).
  vm_compute. reflexivity.
Defined.

(** C6.  Legacy compatibility: when the first two bytes of the first block
    give a length [0 < L2 <= 1000] and the first four bytes fail the test of
    the 4-byte format, [read_string] takes the header to be the 2-byte one,
    with character count [L2] and the data from offset 2, and decodes with
    it (a count above [max_length] is then refused). *)
Theorem legacy_header_is_read expired card start_block max_length block_data :
  read_block card start_block = Some block_data ->
  0 < length_2byte block_data <= 1000 ->
  ~ (0 < length_4byte block_data <= max_length /\ byte_at block_data 0 = 0) ->
  read_string_header block_data max_length
  = Some (mkHeader OldFormat (length_2byte block_data) 2 2)
  /\ read_string expired card start_block max_length
     = if length_2byte block_data >? max_length then None
       else Some (firstn (Z.to_nat (length_2byte block_data))
                         (Utf8.decode_ignore
                            (collect expired card start_block block_data
                               (mkHeader OldFormat (length_2byte block_data)
                                         2 2)))).
Proof.
  intros Hb H2 H4.
  assert (Hh : read_string_header block_data max_length
               = Some (mkHeader OldFormat (length_2byte block_data) 2 2)).
  { unfold read_string_header.
    destruct (Z.ltb_spec 0 (length_4byte block_data));
      destruct (Z.leb_spec (length_4byte block_data) max_length);
      destruct (Z.eqb_spec (byte_at block_data 0) 0);
      cbn [andb orb]; try (exfalso; apply H4; split; [lia|assumption]);
      rewrite (proj2 (Z.ltb_lt _ _)), (proj2 (Z.leb_le _ _)) by lia;
      reflexivity. }
  split; [exact Hh|].
  unfold read_string. rewrite Hb.
  destruct block_data as [|b0 bs]; [cbn in H2; lia|].
  rewrite Hh. cbn [char_count].
  now rewrite (proj2 (Z.eqb_neq _ _)) by lia.
Qed.

Lemma legacy_header_is_read_witness :
  read_string_header legacy_block 3000 = Some (mkHeader OldFormat 5 2 2)
  /\ read_string never (card_with_block 4 legacy_block) 4 3000
     = Some (codepoints "hello").
Proof.
  apply (legacy_header_is_read never (card_with_block 4 legacy_block) 4 3000
           legacy_block).
  - vm_compute. reflexivity.
  - vm_compute. split; [reflexivity|discriminate].
  - vm_compute. intros [[_ H] _]. apply H. reflexivity.
Defined.

(** C7.  Pre-flight failures: when the text is longer than [max_length], or
    the start block is 0, or the card has fewer non-reserved blocks from the
    start block to its end than the record needs, [write_string] returns
    False and the card is as before: nothing was handed to the write tool. *)
Theorem preflight_failure_writes_nothing card start_block text max_length :
  max_length < len text
  \/ start_block = 0
  \/ (exists text_bytes,
        Utf8.encode text = Some text_bytes
        /\ len (free_blocks card start_block) < (4 + len text_bytes + 15) / 16) ->
  write_string card start_block text max_length = (Returned false, card).
Proof.
  intros H. unfold write_string.
  destruct (prepare_cases card start_block text max_length)
    as [[E _]|[[E _]|[[E Henc]|(text_bytes & Henc & Hlen & Hstart & E)]]];
    rewrite E; try reflexivity.
  - exfalso. destruct H as [H|[H|(tb & H & _)]].
    + unfold prepare in E. rewrite Z.gtb_ltb, (proj2 (Z.ltb_lt _ _) H) in E.
      discriminate.
    + unfold prepare in E. rewrite H in E.
      destruct (len text >? max_length); discriminate.
    + congruence.
  - destruct H as [H|[H|(tb & H & Hfree)]]; [lia|contradiction|].
    assert (tb = text_bytes) as -> by congruence.
    set (s := effective_start start_block).
    set (k := (4 + len text_bytes + 15) / 16) in *.
    set (n := Z.to_nat (max_blocks card - s)).
    destruct (Z.ltb_spec (len (take_free n (Z.to_nat k) s)) k) as [Hk|Hk];
      [reflexivity|].
    destruct (Z.lt_ge_cases s 1) as [Hs|Hs].
    + destruct (blocks_needed_positive text_bytes) as [k' Hk'].
      fold k in Hk'. rewrite Hk'. cbn [seq write_chunks].
      destruct n as [|n']; [reflexivity|].
      rewrite take_free_head by apply effective_start_free.
      cbn [nth_error]. now rewrite write_block_low by lia.
    + exfalso.
      pose proof (take_free_free n (Z.to_nat k) s Hs) as Hle.
      rewrite <- (free_blocks_effective card start_block) in Hfree.
      unfold free_blocks in Hfree. fold s in Hfree. fold n in Hfree.
      unfold len in *. lia.
Qed.

Lemma preflight_failure_writes_nothing_witness :
  write_string blank_1k 60 (repeat 97 100) 3000 = (Returned false, blank_1k).
Proof.
  apply (preflight_failure_writes_nothing blank_1k 60 (repeat 97 100) 3000).
  right; right. exists (repeat 97 100). split; [reflexivity|].
  vm_compute. reflexivity.
Defined.

(** C8.  Trailer start advance: for a trailer start block [b] and a text
    that is accepted, [write_string] raises no error for the start block; it
    allocates from block [b + 1]: every planned block is [b + 1] or later, the
    first planned block is [b + 1] when that block is on the card, and the
    call does what a call with start block [b + 1] does. *)
Theorem trailer_start_advances card b text max_length text_bytes :
  is_trailer b = true -> 0 <= b -> len text <= max_length ->
  Utf8.encode text = Some text_bytes ->
  exists data chunks_needed available_blocks,
    prepare card b text max_length
    = Prepared (b + 1) data chunks_needed available_blocks
    /\ Forall (fun i => b + 1 <= i) available_blocks
    /\ (b + 1 < max_blocks card -> hd_error available_blocks = Some (b + 1))
    /\ write_string card b text max_length
       = write_string card (b + 1) text max_length.
Proof.
  intros Ht Hb Hlen Henc.
  assert (Hb0 : b <> 0) by (intros ->; discriminate).
  pose proof (trailer_next _ Ht) as Ht1.
  pose proof (prepare_prepared card b text max_length text_bytes Hlen Hb0 Henc)
    as E.
  pose proof (prepare_prepared card (b + 1) text max_length text_bytes Hlen
                ltac:(lia) Henc) as E1.
  rewrite (effective_start_trailer _ Ht) in E.
  rewrite (effective_start_id _ Ht1) in E1.
  do 3 eexists. split; [exact E|]. split; [|split].
  - eapply Forall_impl;
      [|apply (plan_from_bounds _ _ _ (take_free_plan _ _ (b + 1)))].
    cbn beta. intros i [Hi _]. lia.
  - intros Hin. destruct (blocks_needed_positive text_bytes) as [k' ->].
    replace (Z.to_nat (max_blocks card - (b + 1)))
      with (S (Z.to_nat (max_blocks card - (b + 1) - 1))) by lia.
    now rewrite take_free_head.
  - unfold write_string. now rewrite E, E1.
Qed.

Lemma trailer_start_advances_witness :
  exists data chunks_needed available_blocks,
    prepare blank_1k 7 hello 3000
    = Prepared 8 data chunks_needed available_blocks
    /\ Forall (fun i => 8 <= i) available_blocks
    /\ (8 < max_blocks blank_1k -> hd_error available_blocks = Some 8)
    /\ write_string blank_1k 7 hello 3000 = write_string blank_1k 8 hello 3000.
Proof.
  apply (trailer_start_advances blank_1k 7 hello 3000 hello).
  - reflexivity.
  - lia.
  - vm_compute. discriminate.
  - reflexivity.
Defined.

(** C9 (as amended).  [get_string_info] classifies the first block as Step 1
    of [read_string] does when [read_string] runs with [max_length] 10000;
    with another [max_length] the two still agree (same format, same
    character count, same data offset, or no valid header for both) on every
    first block whose 4-byte length does not lie between the two ceilings. *)
Theorem get_string_info_detects_like_read_string
        card start_block max_length block_data :
  read_block card start_block = Some block_data ->
  ~ (Z.min max_length 10000 < length_4byte block_data
     <= Z.max max_length 10000 /\ byte_at block_data 0 = 0) ->
  info_class (get_string_info card start_block)
  = header_class (read_string_header block_data max_length).
Proof.
  intros Hb Hbetween. unfold get_string_info, read_string_header. rewrite Hb.
  destruct block_data as [|b0 bs]; [reflexivity|].
  set (blk := b0 :: bs) in *.
  destruct (Z.ltb_spec 0 (length_4byte blk));
    destruct (Z.leb_spec (length_4byte blk) 10000);
    destruct (Z.leb_spec (length_4byte blk) max_length);
    destruct (Z.eqb_spec (byte_at blk 0) 0);
    cbn [andb orb];
    try (exfalso; apply Hbetween; split; [lia|assumption]);
    try reflexivity;
    destruct ((0 <? length_2byte blk) && (length_2byte blk <=? 1000));
    reflexivity.
Qed.

Lemma get_string_info_detects_like_read_string_witness :
  info_class (get_string_info (card_with_block 4 header_5000) 4)
  = header_class (read_string_header header_5000 10000).
Proof.
  apply (get_string_info_detects_like_read_string
           (card_with_block 4 header_5000) 4 10000 header_5000).
  - vm_compute. reflexivity.
  - vm_compute. intros [[H _] _]. discriminate H.
Defined.

(** C9 (counterexample).  A first block with the 4-byte length 5000:
    [get_string_info] reports the 4-byte format with 5000 characters, while
    Step 1 of [read_string], with its default [max_length] 3000, finds no
    valid header. *)
Lemma get_string_info_differs_at_default_max_length :
  read_block (card_with_block 4 header_5000) 4 = Some header_5000
  /\ info_class (get_string_info (card_with_block 4 header_5000) 4)
     = Some (NewFormat, 5000, 4)
  /\ header_class (read_string_header header_5000 3000) = None
  /\ read_string never (card_with_block 4 header_5000) 4 3000 = None.
Proof. repeat split; vm_compute; reflexivity. Qed.

(** C10 (as amended).  [read_string] does not advance from a trailer start
    block: it reads block [b] itself and looks for the header there.  For a
    trailer block [b] and a string that [write_string] accepts and has room
    for, the record is stored from block [b + 1] on, block [b] keeps its
    contents, and [read_string] from [b] decodes with the header that the
    bytes of block [b] hold: it fails, so does not recover the record,
    whenever they hold no valid header. *)
Theorem trailer_start_is_read_in_place
        expired card b max_length text text_bytes :
  is_trailer b = true -> 0 <= b ->
  covers card -> transfers_succeed card ->
  Utf8.encode text = Some text_bytes -> len text <= max_length ->
  (4 + len text_bytes + 15) / 16 <= len (free_blocks card b) ->
  exists card',
    write_string card b text max_length = (Returned true, card')
    /\ read_block card' (b + 1)
       = Some (slice (record_bytes (len text) text_bytes) 0 16)
    /\ read_block card' b = read_block card b
    /\ (forall block_data,
          read_block card b = Some block_data ->
          read_string_header block_data max_length = None ->
          read_string expired card' b max_length = None)
    /\ (forall block_data h,
          read_block card b = Some block_data ->
          read_string_header block_data max_length = Some h ->
          char_count h <= max_length ->
          read_string expired card' b max_length
          = Some (firstn (Z.to_nat (char_count h))
                         (Utf8.decode_ignore
                            (collect expired card' b block_data h)))).
Proof.
  intros Ht Hb Hcov Hok Henc Hlen Hfree.
  assert (Hb1 : 1 <= b) by (destruct (Z.eq_dec b 0) as [->|]; [discriminate|lia]).
  destruct (write_then_read expired card b max_length text text_bytes
              Hcov Hok Henc Hlen Hb1 Hfree)
    as (card' & Hw & Hbefore & Hfirst & _).
  rewrite (effective_start_trailer _ Ht) in *.
  exists card'. split; [exact Hw|]. split; [exact Hfirst|].
  assert (Hsame : read_block card' b = read_block card b)
    by (apply Hbefore; lia).
  split; [exact Hsame|]. split.
  - intros blk Hblk Hh. eapply read_string_no_header; [|exact Hh].
    now rewrite Hsame.
  - intros blk h Hblk Hh Hmax.
    assert (Hpos : 0 < char_count h).
    { unfold read_string_header in Hh.
      destruct (Z.ltb_spec 0 (length_4byte blk));
        destruct (Z.ltb_spec 0 (length_2byte blk)); cbn [andb] in Hh;
        repeat match type of Hh with
               | (if ?c then _ else _) = _ => destruct c
               end;
        try discriminate; injection Hh as <-; assumption. }
    apply read_string_found; try assumption; try lia.
    + now rewrite Hsame.
    + intros ->. unfold read_string_header in Hh. discriminate.
Qed.

Lemma trailer_start_is_read_in_place_witness :
  exists card',
    write_string (card_with_block 7 key_trailer) 7 hello 3000
    = (Returned true, card')
    /\ read_block card' 8 = Some (slice (record_bytes (len hello) hello) 0 16)
    /\ read_block card' 7 = read_block (card_with_block 7 key_trailer) 7
    /\ (forall block_data,
          read_block (card_with_block 7 key_trailer) 7 = Some block_data ->
          read_string_header block_data 3000 = None ->
          read_string never card' 7 3000 = None)
    /\ (forall block_data h,
          read_block (card_with_block 7 key_trailer) 7 = Some block_data ->
          read_string_header block_data 3000 = Some h ->
          char_count h <= 3000 ->
          read_string never card' 7 3000
          = Some (firstn (Z.to_nat (char_count h))
                         (Utf8.decode_ignore
                            (collect never card' 7 block_data h)))).
Proof.
  apply (trailer_start_is_read_in_place never (card_with_block 7 key_trailer)
           7 3000 hello hello).
  - reflexivity.
  - lia.
  - unfold covers. vm_compute. discriminate.
  - intros b. reflexivity.
  - reflexivity.
  - vm_compute. discriminate.
  - vm_compute. discriminate.
Defined.

(** C10 (counterexample).  When the bytes of trailer block 7 read as a
    4-byte header with count 1 followed by the letter A, the string "A"
    written with start block 7 (and stored from block 8 on) is what
    [read_string] from block 7 returns. *)
Lemma trailer_start_read_returns_written_text :
  is_trailer 7 = true
  /\ exists card',
       write_string (card_with_block 7 header_like_trailer) 7
                    (codepoints "A") 3000
       = (Returned true, card')
       /\ transfers card' = [(8, [0; 0; 0; 1; 0x41] ++ repeat 0 11)]
       /\ read_string never card' 7 3000 = Some (codepoints "A").
Proof.
  split; [reflexivity|].
  exists (snd (write_string (card_with_block 7 header_like_trailer) 7
                            (codepoints "A") 3000)).
  repeat split; vm_compute; reflexivity.
Qed.

(** * Further properties of the code *)

(** ** One transfer *)
Section One_transfer.

(** The three ways [write_block] ends: refused before the device is
    called, handed over and failed, handed over and done. *)
Lemma write_block_cases card b data :
  write_block card b data = (false, card)
  \/ (write_block card b data = (false, attempted card b data)
      \/ write_block card b data = (true, written card b data)
         /\ transfer_ok card b = true)
     /\ 1 <= b < max_blocks card /\ len data = 16
     /\ 1024 <= len (dump card)
     /\ (is_trailer b = true -> confirm_trailer card = true).
Proof.
  unfold write_block, read_card_raw, attempted, written.
  destruct (Z.eqb_spec (len data) 16) as [Hd|Hd]; cbn [negb]; [|auto].
  destruct (max_blocks_cases card) as [[Hm E4]|[Hm E4]]; rewrite Hm, E4;
    (destruct (Z.leb_spec 0 b); cbn [andb negb]; [|auto]);
    (match goal with |- context [b <=? ?n] => destruct (Z.leb_spec b n) end;
     cbn [andb negb]; [|auto]);
    (destruct (Z.eqb_spec b 0); [auto|]);
    (destruct (is_trailer b) eqn:Et; destruct (confirm_trailer card) eqn:Ec;
     cbn [andb negb]; auto);
    (destruct (Z.leb_spec 1024 (len (dump card))); [|auto]);
    right; (split; [destruct (transfer_ok card b); auto|]);
    repeat split; auto; try lia; discriminate.
Qed.

Lemma read_attempted card b data b' :
  read_block (attempted card b data) b' = read_block card b'.
Proof. reflexivity. Qed.

Lemma write_block_failed card b data :
  covers card -> transfer_ok card b = false -> 1 <= b < max_blocks card ->
  is_trailer b = false -> len data = 16 ->
  write_block card b data = (false, attempted card b data).
Proof.
  intros Hc Ht Hb Htr Hd.
  destruct (write_block_cases card b data) as [E|([E|[E Ht']] & _)];
    [|exact E|congruence].
  exfalso. revert E. unfold write_block, read_card_raw.
  rewrite Hd, Ht, Htr. unfold covers in Hc.
  destruct (max_blocks_cases card) as [[Hm E4]|[Hm E4]]; rewrite Hm in *;
    rewrite E4 in *; bool_cases; cbn [andb negb]; try lia;
    intros [= E]; apply (f_equal transfers) in E; cbn [transfers] in E;
    apply (f_equal (@List.length _)) in E; rewrite length_app in E;
    cbn [List.length] in E; lia.
Qed.

End One_transfer.

(** ** The write loop, whatever the device does *)
Section Write_loop_general.

Variables (avail data : list Z).

(** The loop changes nothing of the device but the image and the log, and
    hands over only blocks of the plan that [write_block] accepts. *)
Lemma write_chunks_log : forall todo card ok card',
  write_chunks todo avail data card = (ok, card') ->
  is_4k card' = is_4k card /\ transfer_ok card' = transfer_ok card
  /\ confirm_trailer card' = confirm_trailer card
  /\ exists log,
       transfers card' = transfers card ++ log
       /\ Forall (fun t => In (fst t) avail /\ 1 <= fst t < max_blocks card
                           /\ len (snd t) = 16) log.
Proof.
  induction todo as [|i todo IH]; intros card ok card' E; cbn [write_chunks] in E.
  - injection E as <- <-. repeat split. exists []. now rewrite app_nil_r.
  - destruct (nth_error avail i) as [b|] eqn:Eb.
    2:{ injection E as <- <-. repeat split. exists []. now rewrite app_nil_r. }
    apply nth_error_In in Eb.
    set (chunk := slice data (Z.of_nat i * 16) ((Z.of_nat i + 1) * 16)) in E.
    destruct (write_block_cases card b chunk)
      as [W|([W|[W Ht]] & Hb & Hd & _)]; rewrite W in E.
    + injection E as <- <-. repeat split. exists []. now rewrite app_nil_r.
    + injection E as <- <-. repeat split. exists [(b, chunk)]. split; auto.
    + apply IH in E as (H4 & Ht' & Hc' & log & Hl & Hall).
      cbn [written is_4k transfer_ok confirm_trailer transfers] in *.
      repeat split; auto.
      exists ((b, chunk) :: log). rewrite Hl, <- app_assoc. split; auto.
Qed.

(** With the whole card in the image, the loop leaves every block outside
    the plan, and block 0, as it was. *)
Lemma write_chunks_frame : forall todo card ok card',
  covers card ->
  write_chunks todo avail data card = (ok, card') ->
  covers card'
  /\ (forall b, ~ In b avail \/ b = 0 -> read_block card' b = read_block card b).
Proof.
  induction todo as [|i todo IH]; intros card ok card' Hc E;
    cbn [write_chunks] in E.
  - injection E as <- <-. auto.
  - destruct (nth_error avail i) as [b|] eqn:Eb.
    2:{ injection E as <- <-. auto. }
    apply nth_error_In in Eb.
    set (chunk := slice data (Z.of_nat i * 16) ((Z.of_nat i + 1) * 16)) in E.
    destruct (write_block_cases card b chunk)
      as [W|([W|[W Ht]] & Hb & Hd & _)]; rewrite W in E.
    + injection E as <- <-. auto.
    + injection E as <- <-. split; [exact Hc|]. intros; apply read_attempted.
    + apply IH in E as (Hc' & Hout); [|apply written_covers; auto; lia].
      split; [exact Hc'|]. intros b' Hb'. rewrite Hout by exact Hb'.
      apply read_written_other; auto; try lia.
      intros ->. destruct Hb'; [auto|lia].
Qed.

Lemma write_chunks_app : forall todo1 todo2 card,
  write_chunks (todo1 ++ todo2) avail data card
  = let '(ok, card1) := write_chunks todo1 avail data card in
    if ok then write_chunks todo2 avail data card1 else (false, card1).
Proof.
  induction todo1 as [|i todo1 IH]; intros todo2 card;
    cbn [app write_chunks].
  - reflexivity.
  - destruct (nth_error avail i) as [b|]; [|reflexivity].
    destruct (write_block card b _) as [[|] card1]; [apply IH|reflexivity].
Qed.

End Write_loop_general.

(** The loop on a run of chunks whose transfers the device takes. *)
Lemma write_chunks_run avail data maxb cur :
  plan_from maxb cur avail -> 1 <= cur ->
  forall m j card,
    max_blocks card = maxb -> covers card ->
    (forall i b, (j <= i < j + m)%nat -> nth_error avail i = Some b ->
       transfer_ok card b = true) ->
    (j + m <= List.length avail)%nat -> Z.of_nat (j + m) * 16 <= len data ->
    exists card',
      write_chunks (seq j m) avail data card = (true, card')
      /\ covers card'
      /\ (forall i b, (j <= i < j + m)%nat -> nth_error avail i = Some b ->
            read_block card' b
            = Some (slice data (Z.of_nat i * 16) ((Z.of_nat i + 1) * 16)))
      /\ (forall b, ~ In b (firstn m (skipn j avail)) ->
            read_block card' b = read_block card b)
      /\ transfers card' = transfers card ++ chunk_transfers avail data j m.
Proof.
  intros Hplan Hcur.
  pose proof (plan_from_bounds _ _ _ Hplan) as Hbounds.
  pose proof (plan_from_sorted _ _ _ Hplan) as Hsorted.
  rewrite Forall_forall in Hbounds.
  induction m as [|m IH]; intros j card Hmax Hcov Hok Hj Hdata.
  - exists card. cbn [seq write_chunks]. unfold chunk_transfers. cbn [seq map].
    rewrite app_nil_r. repeat split; auto. intros; lia.
  - cbn [seq write_chunks].
    destruct (nth_error avail j) as [b|] eqn:Eb;
      [|apply nth_error_None in Eb; lia].
    destruct (Hbounds b (nth_error_In _ _ Eb)) as [Hb Htb].
    assert (Hlen : len (slice data (Z.of_nat j * 16) ((Z.of_nat j + 1) * 16)) = 16)
      by (apply len_chunk; lia).
    rewrite write_block_ok; try assumption; try lia;
      [|apply (Hok j); [lia|assumption]].
    set (card1 := written card b _).
    assert (Hcov1 : covers card1) by (apply written_covers; auto; lia).
    destruct (IH (S j) card1) as (card' & Hw & Hc' & Hin & Hout & Hlog);
      try assumption; try lia.
    { intros i b' Hi Hb'. apply (Hok i); [lia|assumption]. }
    rewrite (skipn_nth_cons _ _ _ Eb). cbn [firstn].
    exists card'. split; [exact Hw|]. split; [exact Hc'|]. split; [|split].
    + intros i b' Hi Hb'. destruct (Nat.eq_dec i j) as [->|Hne].
      * assert (b' = b) by congruence. subst b'.
        rewrite Hout.
        -- apply read_written_same; auto; lia.
        -- intros Hi'. apply In_nth_error in Hi' as [n Hn].
           assert (Hn' : nth_error (skipn (S j) avail) n = Some b).
           { destruct (Nat.lt_ge_cases n m) as [Hlt|Hge].
             - now rewrite nth_error_firstn in Hn;
                 destruct (Nat.ltb_spec n m); [|lia].
             - rewrite nth_error_firstn in Hn.
               destruct (Nat.ltb_spec n m); [lia|discriminate]. }
           rewrite nth_error_skipn in Hn'.
           pose proof (sorted_nth_inj _ Hsorted _ _ _ Hn' Eb). lia.
      * apply Hin; [lia|assumption].
    + intros b' Hb'. rewrite Hout by (intros Hi; apply Hb'; now right).
      apply read_written_other; auto; try lia.
      intros ->. apply Hb'. now left.
    + rewrite Hlog. cbn [card1 written transfers].
      unfold chunk_transfers. cbn [seq map]. rewrite <- app_assoc.
      cbn [app]. now rewrite (nth_error_nth _ _ _ Eb).
Qed.

(** ** write_string, whatever the device does *)
Section Write_string_general.

Variables (card : Card) (start_block max_length : Z) (text : list Z).

(** Either the card is handed back as it was, or the write loop ran on the
    record and its plan. *)
Lemma write_string_loop :
  (exists r, write_string card start_block text max_length = (r, card)
             /\ r <> Returned true)
  \/ exists text_bytes ok card',
       Utf8.encode text = Some text_bytes
       /\ len text <= max_length /\ start_block <> 0
       /\ (4 + len text_bytes + 15) / 16
          <= len (record_blocks card start_block text_bytes)
       /\ write_chunks (seq 0 (Z.to_nat ((4 + len text_bytes + 15) / 16)))
                       (record_blocks card start_block text_bytes)
                       (record_bytes (len text) text_bytes) card
          = (ok, card')
       /\ write_string card start_block text max_length = (Returned ok, card').
Proof.
  unfold write_string.
  destruct (prepare_cases card start_block text max_length)
    as [[-> _]|[[-> _]|[[-> _]|(text_bytes & He & Hl & Hs & ->)]]].
  1-3: left; eexists; split; [reflexivity|discriminate].
  fold (record_blocks card start_block text_bytes).
  destruct (Z.ltb_spec (len (record_blocks card start_block text_bytes))
                       ((4 + len text_bytes + 15) / 16)) as [Hlt|Hge].
  - left; eexists; split; [reflexivity|discriminate].
  - destruct (write_chunks _ _ _ card) as [ok card'] eqn:W.
    right. exists text_bytes, ok, card'. auto 10.
Qed.

Lemma record_blocks_plan text_bytes :
  plan_from (max_blocks card) (effective_start start_block)
            (record_blocks card start_block text_bytes)
  \/ record_blocks card start_block text_bytes = [].
Proof.
  unfold record_blocks.
  destruct (Z.le_gt_cases (effective_start start_block) (max_blocks card)).
  - left.
    replace (max_blocks card) with
      (effective_start start_block
       + Z.of_nat (Z.to_nat (max_blocks card - effective_start start_block)))
      at 1 by lia.
    apply take_free_plan.
  - right. replace (Z.to_nat _) with O by lia. reflexivity.
Qed.

Lemma record_blocks_free text_bytes b :
  In b (record_blocks card start_block text_bytes) ->
  start_block <= b /\ is_trailer b = false.
Proof.
  intros Hin.
  destruct (record_blocks_plan text_bytes) as [Hp|E];
    [|rewrite E in Hin; destruct Hin].
  pose proof (plan_from_bounds _ _ _ Hp) as Hb.
  rewrite Forall_forall in Hb. destruct (Hb b Hin) as [Hr Ht].
  split; [|exact Ht].
  unfold effective_start in Hr. destruct (is_trailer start_block); lia.
Qed.

End Write_string_general.

(** X1.  Whatever the card, the start block, the text and the outcome,
    write_string hands to the device only 16-byte transfers for blocks of
    the card that are neither block 0 nor a sector trailer and that do not
    lie below the start block. *)
Theorem write_string_hands_data_blocks card start_block text max_length :
  exists log,
    transfers (snd (write_string card start_block text max_length))
    = transfers card ++ log
    /\ Forall (fun t => data_transfer card t /\ start_block <= fst t) log.
Proof.
  destruct (write_string_loop card start_block max_length text)
    as [(r & -> & _)|(text_bytes & ok & card' & _ & _ & _ & _ & W & ->)].
  - exists []. cbn [snd]. now rewrite app_nil_r.
  - cbn [snd]. apply write_chunks_log in W as (_ & _ & _ & log & Hl & Hall).
    exists log. split; [exact Hl|].
    rewrite Forall_forall in *. intros t Ht.
    destruct (Hall t Ht) as (Hin & Hb & Hd).
    apply record_blocks_free in Hin as [Hs Htr].
    unfold data_transfer, is_reserved. rewrite Htr.
    destruct (Z.eqb_spec (fst t) 0); [lia|auto].
Qed.

(** X2.  On a card whose image covers all its blocks, write_string leaves
    block 0, every sector trailer and every block below the start block as
    they were, whether it succeeds, fails half-way or raises. *)
Theorem write_string_keeps_reserved card start_block text max_length b :
  covers card ->
  is_reserved b = true \/ b < start_block ->
  read_block (snd (write_string card start_block text max_length)) b
  = read_block card b.
Proof.
  intros Hc Hb.
  destruct (write_string_loop card start_block max_length text)
    as [(r & -> & _)|(text_bytes & ok & card' & _ & _ & _ & _ & W & ->)];
    [reflexivity|].
  cbn [snd]. apply write_chunks_frame in W as [_ Hout]; [|exact Hc].
  apply Hout.
  destruct (Z.eq_dec b 0) as [->|Hn]; [now right|left].
  intros Hin. apply record_blocks_free in Hin as [Hs Htr].
  destruct Hb as [Hr|Hlt]; [|lia].
  unfold is_reserved in Hr. rewrite Htr in Hr.
  destruct (Z.eqb_spec b 0); [lia|discriminate].
Qed.

Lemma write_string_keeps_reserved_witness :
  covers blank_1k
  /\ read_block (snd (write_string blank_1k 4 hello 3000)) 7
     = read_block blank_1k 7.
Proof.
  assert (Hc : covers blank_1k) by (vm_compute; discriminate).
  split; [exact Hc|].
  apply (write_string_keeps_reserved blank_1k 4 hello 3000 7 Hc).
  left. reflexivity.
Defined.



(** X4.  write_string is not atomic.  When the device refuses the transfer
    of chunk [j] after taking the chunks before it, write_string returns
    False, the first [j] planned blocks hold the new record, every other
    block is as it was, and exactly [j + 1] transfers were handed over. *)
Theorem write_string_stops_at_failure card start_block max_length text
        text_bytes j bj :
  covers card ->
  Utf8.encode text = Some text_bytes ->
  len text <= max_length -> 1 <= start_block ->
  (4 + len text_bytes + 15) / 16 <= len (free_blocks card start_block) ->
  nth_error (record_blocks card start_block text_bytes) j = Some bj ->
  transfer_ok card bj = false ->
  (forall i b, (i < j)%nat ->
     nth_error (record_blocks card start_block text_bytes) i = Some b ->
     transfer_ok card b = true) ->
  exists card',
    write_string card start_block text max_length = (Returned false, card')
    /\ (forall i b, (i < j)%nat ->
          nth_error (record_blocks card start_block text_bytes) i = Some b ->
          read_block card' b
          = Some (slice (record_bytes (len text) text_bytes)
                        (Z.of_nat i * 16) ((Z.of_nat i + 1) * 16)))
    /\ (forall b,
          ~ In b (firstn j (record_blocks card start_block text_bytes)) ->
          read_block card' b = read_block card b)
    /\ transfers card'
       = transfers card
         ++ chunk_transfers (record_blocks card start_block text_bytes)
                            (record_bytes (len text) text_bytes) 0 (S j).
Proof.
  intros Hc He Hl Hs Hfree Hj Hfail Hok.
  set (plan := record_blocks card start_block text_bytes) in *.
  set (blocks := Z.to_nat ((4 + len text_bytes + 15) / 16)).
  set (data := record_bytes (len text) text_bytes).
  rewrite <- free_blocks_effective in Hfree.
  assert (Hlen : List.length plan = blocks)
    by exact (plan_length card start_block text_bytes Hs Hfree).
  assert (Hplan : plan_from (max_blocks card) (effective_start start_block) plan)
    by exact (plan_is_plan card start_block text_bytes Hs Hfree).
  assert (Hjb : (j < blocks)%nat).
  { rewrite <- Hlen. apply nth_error_Some. congruence. }
  assert (Hdata : len data = 16 * Z.of_nat blocks).
  { unfold data, blocks. rewrite len_record.
    pose proof (len_nonneg text_bytes).
    rewrite Z2Nat.id; [reflexivity|]. apply Z.div_pos; lia. }
  unfold write_string.
  rewrite (prepare_prepared card start_block text max_length text_bytes)
    by (try assumption; lia).
  fold (record_blocks card start_block text_bytes). fold plan data.
  assert (Hk : len plan = (4 + len text_bytes + 15) / 16).
  { unfold len. rewrite Hlen. unfold blocks.
    pose proof (len_nonneg text_bytes).
    rewrite Z2Nat.id; [reflexivity|]. apply Z.div_pos; lia. }
  rewrite (proj2 (Z.ltb_ge (len plan) _)) by lia.
  fold blocks.
  replace blocks with (j + S (blocks - S j))%nat by lia.
  rewrite seq_app, write_chunks_app. cbn [Nat.add].
  destruct (write_chunks_run plan data _ _ Hplan
              (effective_start_positive _ Hs) j 0%nat card eq_refl Hc)
    as (card1 & W1 & Hc1 & Hin1 & Hout1 & Hlog1).
  { intros i b Hi Hb. apply (Hok i b); [lia|exact Hb]. }
  { lia. }
  { lia. }
  rewrite W1. cbn [seq write_chunks]. rewrite Hj.
  destruct (write_chunks_log _ _ _ _ _ _ W1) as (H4 & Ht1 & _).
  assert (Hm1 : max_blocks card1 = max_blocks card)
    by (unfold max_blocks; now rewrite H4).
  pose proof (plan_from_bounds _ _ _ Hplan) as Hbounds.
  rewrite Forall_forall in Hbounds.
  destruct (Hbounds bj (nth_error_In _ _ Hj)) as [Hbj Htj].
  pose proof (effective_start_positive _ Hs).
  rewrite write_block_failed;
    [|exact Hc1|now rewrite Ht1|rewrite Hm1; lia|exact Htj|apply len_chunk; lia].
  eexists. split; [reflexivity|]. split; [|split].
  - intros i b Hi Hb. rewrite read_attempted. apply Hin1; [lia|exact Hb].
  - intros b Hb. rewrite read_attempted. apply Hout1. exact Hb.
  - cbn [attempted transfers]. rewrite Hlog1, <- app_assoc. f_equal.
    unfold chunk_transfers. rewrite seq_S, map_app. cbn [Nat.add map].
    now rewrite (nth_error_nth _ _ _ Hj).
Qed.

Lemma write_string_stops_at_failure_witness :
  exists card',
    write_string (refusing 5) 4 hello 3000 = (Returned false, card')
    /\ read_block card' 4
       = Some (slice (record_bytes (len hello) hello) 0 16)
    /\ read_block card' 5 = Some (repeat 0 16).
Proof.
  destruct (write_string_stops_at_failure (refusing 5) 4 3000 hello hello
              1%nat 5) as (card' & W & Hin & Hout & _).
  - unfold covers. vm_compute. discriminate.
  - reflexivity.
  - vm_compute. discriminate.
  - lia.
  - vm_compute. discriminate.
  - reflexivity.
  - reflexivity.
  - intros [|i] b Hi; [intros [= <-]; reflexivity|lia].
  - exists card'. split; [exact W|]. split.
    + apply (Hin 0%nat 4); [lia|reflexivity].
    + rewrite Hout; [reflexivity|].
      cbv. intros [H|[]]. discriminate H.
Defined.

(** ** Records side by side *)
Section Two_records.

Lemma write_string_device card start_block text max_length r card' :
  write_string card start_block text max_length = (r, card') ->
  is_4k card' = is_4k card /\ transfer_ok card' = transfer_ok card
  /\ confirm_trailer card' = confirm_trailer card.
Proof.
  intros W.
  destruct (write_string_loop card start_block max_length text)
    as [(r' & E & _)|(text_bytes & ok & card2 & _ & _ & _ & _ & Wc & E)];
    rewrite E in W; injection W as <- <-; [auto|].
  apply write_chunks_log in Wc as (H4 & Ht & Hc & _). auto.
Qed.

(** What a successful write_string leaves, in the words of the plan. *)
Lemma write_string_record card start_block max_length text text_bytes :
  covers card -> transfers_succeed card ->
  Utf8.encode text = Some text_bytes ->
  len text <= max_length -> 1 <= start_block ->
  (4 + len text_bytes + 15) / 16 <= len (free_blocks card start_block) ->
  exists card',
    write_string card start_block text max_length = (Returned true, card')
    /\ covers card' /\ transfers_succeed card'
    /\ max_blocks card' = max_blocks card
    /\ (forall i b,
          nth_error (record_blocks card start_block text_bytes) i = Some b ->
          read_block card' b
          = Some (slice (record_bytes (len text) text_bytes)
                        (Z.of_nat i * 16) ((Z.of_nat i + 1) * 16)))
    /\ (forall b, ~ In b (record_blocks card start_block text_bytes) ->
          read_block card' b = read_block card b).
Proof.
  intros Hcov Hok Henc Hlen Hstart Hfree.
  rewrite <- free_blocks_effective in Hfree.
  destruct (write_string_stores card start_block max_length text text_bytes
              Hcov Hok Henc Hlen Hstart Hfree)
    as (card' & Hw & H4 & Hc' & Hin & Hout).
  pose proof (plan_length card start_block text_bytes Hstart Hfree) as Hl.
  destruct (write_string_device _ _ _ _ _ _ Hw) as (_ & Ht & _).
  exists card'. split; [exact Hw|]. split; [exact Hc'|]. split; [|split; [|split]].
  - intros b. rewrite Ht. apply Hok.
  - unfold max_blocks. now rewrite H4.
  - intros i b Hb. apply Hin; [|exact Hb].
    rewrite <- Hl. apply nth_error_Some. unfold record_blocks in Hb. congruence.
  - exact Hout.
Qed.

(** Reading a record whose blocks the card holds. *)
Lemma read_record expired card start_block max_length text text_bytes :
  (forall tick, expired tick = false) ->
  Utf8.encode text = Some text_bytes ->
  0 < len text <= max_length -> 4 + len text_bytes <= 16 * 33 ->
  1 <= start_block ->
  (4 + len text_bytes + 15) / 16 <= len (free_blocks card start_block) ->
  (forall i b,
     nth_error (record_blocks card start_block text_bytes) i = Some b ->
     read_block card b
     = Some (slice (record_bytes (len text) text_bytes)
                   (Z.of_nat i * 16) ((Z.of_nat i + 1) * 16))) ->
  read_string expired card (effective_start start_block) max_length
  = Some text.
Proof.
  intros Htime Henc Hlen Hlimit Hstart Hfree Hstored.
  rewrite <- free_blocks_effective in Hfree.
  pose proof (plan_length card start_block text_bytes Hstart Hfree) as Hl.
  apply (read_stored_record expired Htime card _ max_length text text_bytes);
    try assumption; try lia.
  - apply effective_start_free.
  - intros i b _ Hb. apply Hstored. exact Hb.
Qed.

End Two_records.

(** X5.  Two records whose planned blocks do not meet can be stored on one
    card: after both calls of write_string each of them reads back as it
    was written. *)
Theorem two_records_read_back expired card a b max_length text1 bytes1
        text2 bytes2 :
  covers card -> transfers_succeed card ->
  (forall tick, expired tick = false) ->
  Utf8.encode text1 = Some bytes1 -> Utf8.encode text2 = Some bytes2 ->
  0 < len text1 <= max_length -> 0 < len text2 <= max_length ->
  4 + len bytes1 <= 16 * 33 -> 4 + len bytes2 <= 16 * 33 ->
  1 <= a -> 1 <= b ->
  (4 + len bytes1 + 15) / 16 <= len (free_blocks card a) ->
  (4 + len bytes2 + 15) / 16 <= len (free_blocks card b) ->
  (forall x, In x (record_blocks card a bytes1) ->
             ~ In x (record_blocks card b bytes2)) ->
  exists card1 card2,
    write_string card a text1 max_length = (Returned true, card1)
    /\ write_string card1 b text2 max_length = (Returned true, card2)
    /\ read_string expired card2 (effective_start a) max_length = Some text1
    /\ read_string expired card2 (effective_start b) max_length = Some text2.
Proof.
  intros Hcov Hok Htime He1 He2 Hl1 Hl2 Hr1 Hr2 Ha Hb Hf1 Hf2 Hdis.
  destruct (write_string_record card a max_length text1 bytes1)
    as (card1 & W1 & Hc1 & Hok1 & Hm1 & Hin1 & Hout1); try assumption; try lia.
  assert (Hfree1 : forall s, free_blocks card1 s = free_blocks card s)
    by (intros s; unfold free_blocks; now rewrite Hm1).
  assert (Hplan1 : forall s bs, record_blocks card1 s bs = record_blocks card s bs)
    by (intros s bs; unfold record_blocks; now rewrite Hm1).
  destruct (write_string_record card1 b max_length text2 bytes2)
    as (card2 & W2 & Hc2 & Hok2 & Hm2 & Hin2 & Hout2); try assumption; try lia.
  { now rewrite Hfree1. }
  assert (Hfree2 : forall s, free_blocks card2 s = free_blocks card s)
    by (intros s; unfold free_blocks; now rewrite Hm2, Hm1).
  assert (Hplan2 : forall s bs, record_blocks card2 s bs = record_blocks card s bs)
    by (intros s bs; unfold record_blocks; now rewrite Hm2, Hm1).
  exists card1, card2. split; [exact W1|]. split; [exact W2|]. split.
  - apply (read_record expired card2 a max_length text1 bytes1);
      try assumption; try (now rewrite Hfree2).
    intros i x Hx. rewrite Hplan2 in Hx.
    rewrite Hout2; [now apply Hin1|].
    rewrite Hplan1. apply Hdis. eapply nth_error_In. exact Hx.
  - apply (read_record expired card2 b max_length text2 bytes2);
      try assumption; try (now rewrite Hfree2).
    intros i x Hx. rewrite Hplan2, <- Hplan1 in Hx. now apply Hin2.
Qed.

Lemma two_records_read_back_witness :
  exists card1 card2,
    write_string blank_1k 4 hello 3000 = (Returned true, card1)
    /\ write_string card1 6 euro_text 3000 = (Returned true, card2)
    /\ read_string never card2 4 3000 = Some hello
    /\ read_string never card2 6 3000 = Some euro_text.
Proof.
  apply (two_records_read_back never blank_1k 4 6 3000 hello hello euro_text
           [0xE2; 0x82; 0xAC; 0xC3; 0xBC; 0x61; 0x62; 0x63]).
  - unfold covers. vm_compute. discriminate.
  - intros x. reflexivity.
  - intros tick. reflexivity.
  - reflexivity.
  - reflexivity.
  - split; vm_compute; [reflexivity|discriminate].
  - split; vm_compute; [reflexivity|discriminate].
  - vm_compute. discriminate.
  - vm_compute. discriminate.
  - lia.
  - lia.
  - vm_compute. discriminate.
  - vm_compute. discriminate.
  - intros x H1 H2. vm_compute in H1, H2.
    destruct H1 as [<-|[<-|[]]]; destruct H2 as [H|[]]; discriminate H.
Defined.

(** ** Capacity *)
Section Capacity.

Lemma block_range_from n : forall cur b, In b (block_range n cur) -> cur <= b.
Proof.
  induction n as [|n IH]; intros cur b; cbn [block_range In]; [tauto|].
  intros [<-|H]; [lia|]. apply IH in H. lia.
Qed.

(** From block 1 on, the blocks [get_available_space] counts are the
    blocks that are not reserved. *)
Lemma available_free card start_block :
  1 <= start_block ->
  available_blocks (get_available_space card start_block)
  = len (free_blocks card start_block).
Proof.
  intros Hs. unfold get_available_space, free_blocks. cbn [available_blocks].
  rewrite Z.max_r by lia. f_equal. apply filter_ext_in.
  intros b Hb. apply block_range_from in Hb.
  unfold is_reserved, is_trailer.
  destruct (Z.eqb_spec b 0); [lia|reflexivity].
Qed.

(** Too few free blocks: write_string returns before the write loop. *)
Lemma write_string_short card start_block text max_length text_bytes :
  1 <= start_block -> Utf8.encode text = Some text_bytes ->
  len text <= max_length ->
  len (free_blocks card start_block) < (4 + len text_bytes + 15) / 16 ->
  write_string card start_block text max_length = (Returned false, card).
Proof.
  intros Hs He Hl Hshort.
  unfold write_string.
  rewrite (prepare_prepared card start_block text max_length text_bytes)
    by (try assumption; lia).
  rewrite <- free_blocks_effective in Hshort.
  pose proof (take_free_free
                (Z.to_nat (max_blocks card - effective_start start_block))
                (Z.to_nat ((4 + len text_bytes + 15) / 16))
                (effective_start start_block)
                (effective_start_positive _ Hs)) as Hle.
  unfold free_blocks in Hshort.
  match goal with
  | |- (if ?a <? ?b then _ else _) = _ =>
      rewrite (proj2 (Z.ltb_lt a b)); [reflexivity|unfold len in *; lia]
  end.
Qed.

End Capacity.

(** X6.  get_available_space tells what write_string will do: from a start
    block of 1 or more on a writable card, a text within the length limit
    is stored exactly when its UTF-8 bytes number at most [usable_bytes],
    and otherwise write_string returns False and the card is untouched. *)
Theorem usable_bytes_decides_write card start_block text max_length
        text_bytes :
  covers card -> transfers_succeed card -> 1 <= start_block ->
  Utf8.encode text = Some text_bytes -> len text <= max_length ->
  (len text_bytes <= usable_bytes (get_available_space card start_block) ->
   exists card',
     write_string card start_block text max_length = (Returned true, card'))
  /\ (usable_bytes (get_available_space card start_block) < len text_bytes ->
      write_string card start_block text max_length = (Returned false, card)).
Proof.
  intros Hc Hok Hs He Hl.
  pose proof (available_free card start_block Hs) as Ha.
  assert (Hu : usable_bytes (get_available_space card start_block)
               = len (free_blocks card start_block) * 16 - 4)
    by (rewrite <- Ha; reflexivity).
  rewrite Hu. pose proof (len_nonneg text_bytes). split; intros Hfit.
  - destruct (write_string_record card start_block max_length text text_bytes)
      as (card' & W & _); try assumption; [arith|].
    exists card'. exact W.
  - apply (write_string_short card start_block text max_length text_bytes);
      try assumption. arith.
Qed.

Lemma usable_bytes_decides_write_witness :
  usable_bytes (get_available_space blank_1k 60) = 44
  /\ (exists card',
        write_string blank_1k 60 (repeat 97 44) 3000 = (Returned true, card'))
  /\ write_string blank_1k 60 (repeat 97 45) 3000 = (Returned false, blank_1k).
Proof.
  split; [reflexivity|]. split.
  - apply (usable_bytes_decides_write blank_1k 60 (repeat 97 44) 3000
             (repeat 97 44)).
    + unfold covers. vm_compute. discriminate.
    + intros b. reflexivity.
    + lia.
    + reflexivity.
    + vm_compute. discriminate.
    + vm_compute. discriminate.
  - apply (usable_bytes_decides_write blank_1k 60 (repeat 97 45) 3000
             (repeat 97 45)).
    + unfold covers. vm_compute. discriminate.
    + intros b. reflexivity.
    + lia.
    + reflexivity.
    + vm_compute. discriminate.
    + vm_compute. reflexivity.
Defined.

(** ** Start blocks outside the card *)

Lemma write_string_low_start card start_block text max_length :
  start_block <= 0 ->
  write_string card start_block text max_length = (Returned false, card)
  \/ write_string card start_block text max_length = (Raised, card)
     /\ Utf8.encode text = None.
Proof.
  intros Hs. unfold write_string.
  destruct (prepare_cases card start_block text max_length)
    as [[-> _]|[[-> _]|[[-> Hn]|(text_bytes & He & Hl & Hz & ->)]]]; auto.
  left. fold (record_blocks card start_block text_bytes).
  destruct (Z.ltb_spec (len (record_blocks card start_block text_bytes))
                       ((4 + len text_bytes + 15) / 16)) as [Hlt|Hge];
    [reflexivity|].
  destruct (blocks_needed_positive text_bytes) as [k Hk]. rewrite Hk.
  cbn [seq write_chunks].
  destruct (record_blocks card start_block text_bytes) as [|a rest] eqn:Ep.
  { reflexivity. }
  cbn [nth_error].
  rewrite write_block_low; [reflexivity|].
  destruct (record_blocks_plan card start_block text_bytes) as [Hp|E];
    [|congruence].
  rewrite Ep in Hp. cbn [plan_from] in Hp. destruct Hp as (Ha & _ & Hgap & _).
  destruct (Z.le_gt_cases a 0) as [Hle|Hgt]; [exact Hle|].
  assert (He0 : effective_start start_block <= 0)
    by (unfold effective_start; destruct (is_trailer start_block); lia).
  specialize (Hgap 0 ltac:(lia)). discriminate Hgap.
Qed.

(** C2.  Reserved-block exclusion does not hold for a negative start
    block.  write_string turns away start block 0 only: a negative start
    block is not reported as an invalid start, it is planned.  The plan
    then begins with a block that is no data block, which for start block
    -1 (advanced like a trailer) is block 0 itself; the call fails only
    when write_block refuses that block, and the card is left as it
    was. *)
Theorem negative_start_plans_block_0 card start_block text max_length
        text_bytes :
  start_block < 0 ->
  Utf8.encode text = Some text_bytes -> len text <= max_length ->
  exists rest,
    prepare card start_block text max_length
    = Prepared (effective_start start_block)
               (record_bytes (len text) text_bytes)
               ((4 + len text_bytes + 15) / 16)
               (effective_start start_block :: rest)
    /\ effective_start start_block <= 0
    /\ (start_block = -1 -> effective_start start_block = 0)
    /\ write_string card start_block text max_length = (Returned false, card).
Proof.
  intros Hs He Hl.
  assert (Heff : effective_start start_block <= 0)
    by (unfold effective_start; destruct (is_trailer start_block); lia).
  destruct (blocks_needed_positive text_bytes) as [k Hk].
  assert (Hn : exists n,
             Z.to_nat (max_blocks card - effective_start start_block) = S n).
  { exists (Nat.pred (Z.to_nat (max_blocks card
                                - effective_start start_block))).
    destruct (max_blocks_cases card) as [[-> _]|[-> _]]; lia. }
  destruct Hn as [n Hn].
  exists (take_free n k (effective_start start_block + 1)).
  split; [|split; [exact Heff|split]].
  - rewrite (prepare_prepared card start_block text max_length text_bytes)
      by (try assumption; lia).
    rewrite Hk, Hn, take_free_head by apply effective_start_free.
    reflexivity.
  - intros ->. reflexivity.
  - destruct (write_string_low_start card start_block text max_length)
      as [E|[_ E]]; [lia|exact E|congruence].
Qed.

Lemma negative_start_plans_block_0_witness :
  prepare blank_1k (-1) [97] 3000 = Prepared 0 (record_bytes 1 [97]) 1 [0]
  /\ write_string blank_1k (-1) [97] 3000 = (Returned false, blank_1k).
Proof.
  destruct (negative_start_plans_block_0 blank_1k (-1) [97] 3000 [97])
    as (rest & _ & _ & _ & W).
  - lia.
  - reflexivity.
  - vm_compute. discriminate.
  - split; [vm_compute; reflexivity|exact W].
Defined.

(** X7.  A start block outside the data area is never written: for a
    start block of 0 or below, and for one at the last block of the card
    (its last trailer) or beyond, write_string hands the card back as it
    was and does not return True. *)
Theorem start_outside_card_writes_nothing card start_block text max_length :
  start_block <= 0 \/ max_blocks card - 1 <= start_block ->
  write_string card start_block text max_length = (Returned false, card)
  \/ write_string card start_block text max_length = (Raised, card)
     /\ Utf8.encode text = None.
Proof.
  intros [Hlow|Hhigh]; [now apply write_string_low_start|].
  unfold write_string.
  destruct (prepare_cases card start_block text max_length)
    as [[-> _]|[[-> _]|[[-> Hn]|(text_bytes & He & Hl & Hz & ->)]]]; auto.
  left.
  assert (Hend : max_blocks card <= effective_start start_block).
  { unfold effective_start.
    destruct (Z.eq_dec start_block (max_blocks card - 1)) as [->|Hne].
    - replace (is_trailer (max_blocks card - 1)) with true; [lia|].
      unfold is_trailer.
      destruct (max_blocks_cases card) as [[-> _]|[-> _]]; reflexivity.
    - destruct (is_trailer start_block); lia. }
  replace (Z.to_nat (max_blocks card - effective_start start_block))
    with O by lia.
  cbn [take_free]. destruct (blocks_needed_positive text_bytes) as [k Hk].
  pose proof (len_nonneg text_bytes).
  rewrite (proj2 (Z.ltb_lt _ _)); [reflexivity|].
  change (len (@nil Z)) with 0. lia.
Qed.

Lemma start_outside_card_writes_nothing_witness :
  write_string blank_1k 63 hello 3000 = (Returned false, blank_1k)
  \/ write_string blank_1k 63 hello 3000 = (Raised, blank_1k)
     /\ Utf8.encode hello = None.
Proof.
  apply (start_outside_card_writes_nothing blank_1k 63 hello 3000).
  right. vm_compute. discriminate.
Defined.

(** ** write_long_string *)
Section Long_strings.

Lemma block_range_app n : forall m cur,
  block_range (n + m) cur
  = block_range n cur ++ block_range m (cur + Z.of_nat n).
Proof.
  induction n as [|n IH]; intros m cur; cbn [Nat.add block_range app].
  - f_equal. lia.
  - f_equal. rewrite IH. do 2 f_equal. lia.
Qed.

(** A later start has no more free blocks. *)
Lemma free_blocks_from_1 card start_block :
  1 <= start_block ->
  len (free_blocks card start_block) <= len (free_blocks card 1).
Proof.
  intros Hs. unfold free_blocks, len.
  destruct (Z.le_gt_cases (max_blocks card) start_block) as [Hge|Hlt].
  - replace (Z.to_nat (max_blocks card - start_block)) with O by lia.
    cbn [block_range filter List.length]. lia.
  - replace (Z.to_nat (max_blocks card - 1))
      with (Z.to_nat (start_block - 1)
            + Z.to_nat (max_blocks card - start_block))%nat by lia.
    rewrite block_range_app, filter_app, length_app.
    replace (1 + Z.of_nat (Z.to_nat (start_block - 1))) with start_block by lia.
    lia.
Qed.

Lemma free_blocks_count card :
  len (free_blocks card 1) = if is_4k card then 191 else 47.
Proof.
  unfold free_blocks, max_blocks. destruct (is_4k card); vm_compute; reflexivity.
Qed.

(** A text that fits on a card has at most 3052 characters. *)
Lemma stored_text_small card start_block text text_bytes :
  1 <= start_block -> Utf8.encode text = Some text_bytes ->
  (4 + len text_bytes + 15) / 16 <= len (free_blocks card start_block) ->
  len text <= len text_bytes <= 3052.
Proof.
  intros Hs He Hfree.
  pose proof (Utf8Facts.encode_length _ _ He) as Hel.
  pose proof (free_blocks_from_1 card start_block Hs) as Hle.
  rewrite free_blocks_count in Hle.
  split; [unfold len; lia|].
  destruct (is_4k card); arith.
Qed.

Lemma sector_start_free start_sector :
  0 <= start_sector ->
  1 <= sector_start start_sector
  /\ is_reserved (sector_start start_sector) = false
  /\ effective_start (sector_start start_sector) = sector_start start_sector.
Proof.
  intros Hs. unfold sector_start, effective_start, is_reserved, is_trailer.
  destruct (Z.eqb_spec start_sector 0) as [->|Hn]; [auto|].
  replace ((start_sector * 4 + 1) mod 4) with 1 by arith.
  destruct (Z.eqb_spec (start_sector * 4) 0); [lia|]. cbn. split; [lia|auto].
Qed.

End Long_strings.

(** X8.  write_long_string starts a record in the first data block of the
    sector (block 1 for sector 0, block 4 * sector otherwise), which is
    never block 0 nor a trailer.  On a writable card every text that fits
    from that block on is stored.  read_string returns the text from that
    block when the text is not empty, its record fills at most the 33
    blocks read_string collects (4 + bytes <= 528), the length limit of
    the reader is not below the length of the text and the deadline does
    not pass. *)
Theorem write_long_string_round_trip card start_sector text text_bytes :
  covers card -> transfers_succeed card ->
  Utf8.encode text = Some text_bytes ->
  0 <= start_sector ->
  (4 + len text_bytes + 15) / 16
  <= len (free_blocks card (sector_start start_sector)) ->
  is_reserved (sector_start start_sector) = false
  /\ exists card',
       write_long_string card text start_sector = (Returned true, card')
       /\ forall expired read_limit,
            (forall tick, expired tick = false) ->
            0 < len text <= read_limit -> 4 + len text_bytes <= 16 * 33 ->
            read_string expired card' (sector_start start_sector) read_limit
            = Some text.
Proof.
  intros Hc Hok He Hs Hfree.
  destruct (sector_start_free start_sector Hs) as (H1 & Hr & Heff).
  split; [exact Hr|].
  pose proof (stored_text_small card _ text text_bytes H1 He Hfree) as Hsmall.
  destruct (write_string_record card (sector_start start_sector) 10000 text
              text_bytes) as (card' & W & Hc' & _ & Hm & Hin & _);
    try assumption; [lia|].
  exists card'. split; [exact W|].
  intros expired read_limit Htime Hl Hlimit.
  rewrite <- Heff at 1.
  apply (read_record expired card' _ read_limit text text_bytes);
    try assumption.
  - unfold free_blocks. rewrite Hm. exact Hfree.
  - intros i b Hb. apply Hin. unfold record_blocks in *.
    rewrite <- Hm. exact Hb.
Qed.

Lemma write_long_string_round_trip_witness :
  is_reserved (sector_start 2) = false
  /\ exists card',
       write_long_string blank_1k hello 2 = (Returned true, card')
       /\ read_string never card' (sector_start 2) 3000 = Some hello.
Proof.
  destruct (write_long_string_round_trip blank_1k 2 hello hello)
    as (Hr & card' & W & Hread).
  - unfold covers. vm_compute. discriminate.
  - intros b. reflexivity.
  - reflexivity.
  - lia.
  - vm_compute. discriminate.
  - split; [exact Hr|]. exists card'. split; [exact W|].
    apply Hread.
    + intros tick. reflexivity.
    + split; vm_compute; [reflexivity|discriminate].
    + vm_compute. discriminate.
Defined.

(** X9.  The ceiling of 10000 characters that write_long_string passes on
    is out of reach: a text of more than 748 UTF-8 bytes on a 1K card, or
    of more than 3052 on a 4K card, is refused for every sector, and the
    card is untouched. *)
Theorem write_long_string_capacity card text start_sector text_bytes :
  Utf8.encode text = Some text_bytes ->
  (if is_4k card then 3052 else 748) < len text_bytes ->
  write_long_string card text start_sector = (Returned false, card).
Proof.
  intros He Hbig. unfold write_long_string. fold (sector_start start_sector).
  destruct (Z.le_gt_cases (sector_start start_sector) 0) as [Hlow|Hpos].
  { destruct (write_string_low_start card (sector_start start_sector) text
                10000 Hlow) as [E|[_ E]]; [exact E|congruence]. }
  destruct (Z.le_gt_cases (len text) 10000) as [Hl|Hl].
  - apply (write_string_short card _ text 10000 text_bytes);
      try assumption; [lia|].
    pose proof (free_blocks_from_1 card (sector_start start_sector)
                  ltac:(lia)) as Hle.
    rewrite free_blocks_count in Hle.
    destruct (is_4k card); arith.
  - unfold write_string, prepare.
    now rewrite (proj2 (Z.gtb_gt _ _)) by lia.
Qed.

Lemma write_long_string_capacity_witness :
  write_long_string blank_1k (repeat 97 749) 1 = (Returned false, blank_1k).
Proof.
  apply (write_long_string_capacity blank_1k (repeat 97 749) 1 (repeat 97 749)).
  - vm_compute. reflexivity.
  - vm_compute. reflexivity.
Defined.

(** ** read_multiple_blocks *)
Section Multiple_blocks.

Lemma slice_app {A} (l : list A) a b c :
  0 <= a <= b -> b <= c -> slice l a b ++ slice l b c = slice l a c.
Proof.
  intros Hab Hbc. unfold slice.
  replace (Z.to_nat (c - a)) with (Z.to_nat (b - a) + Z.to_nat (c - b))%nat
    by lia.
  rewrite firstn_plus, skipn_skipn.
  do 3 f_equal. lia.
Qed.

Lemma slice_empty {A} (l : list A) a : slice l a a = [].
Proof. unfold slice. now rewrite Z.sub_diag. Qed.

Lemma read_each_covered card start_block :
  covers card -> 0 <= start_block ->
  forall m j result,
    start_block + Z.of_nat (j + m) <= max_blocks card ->
    read_each card start_block (seq j m) result
    = Some (result
            ++ slice (dump card) ((start_block + Z.of_nat j) * 16)
                     ((start_block + Z.of_nat (j + m)) * 16)).
Proof.
  intros Hc Hs. induction m as [|m IH]; intros j result Hm;
    cbn [seq read_each].
  - rewrite Nat.add_0_r, slice_empty, app_nil_r. reflexivity.
  - rewrite read_block_covered by (auto; lia).
    rewrite IH by lia. rewrite <- app_assoc. do 2 f_equal.
    replace ((start_block + Z.of_nat j) * 16 + 16)
      with ((start_block + Z.of_nat (S j)) * 16) by lia.
    replace (S j + m)%nat with (j + S m)%nat by lia.
    apply slice_app; lia.
Qed.

End Multiple_blocks.

(** X10.  read_multiple_blocks on a card whose image covers all its blocks:
    a range that ends beyond the card gives None; a count of 0 or less
    gives the empty bytes, whatever the start; a negative start gives None;
    every other range gives its 16 * count bytes of the image, trailers and
    block 0 included. *)
Theorem read_multiple_blocks_cases card start_block num_blocks :
  covers card ->
  read_multiple_blocks card start_block num_blocks
  = if start_block + num_blocks >? max_blocks card then None
    else if num_blocks <=? 0 then Some []
    else if start_block <? 0 then None
    else Some (slice (dump card) (start_block * 16)
                     ((start_block + num_blocks) * 16)).
Proof.
  intros Hc. unfold read_multiple_blocks.
  destruct (Z.gtb_spec (start_block + num_blocks) (max_blocks card)) as [|Hm];
    [reflexivity|].
  destruct (Z.leb_spec num_blocks 0) as [Hn|Hn].
  { replace (Z.to_nat num_blocks) with O by lia. reflexivity. }
  destruct (Z.ltb_spec start_block 0) as [Hs|Hs].
  - destruct (Z.to_nat num_blocks) as [|n] eqn:En; [lia|].
    cbn [seq read_each]. rewrite read_block_outside; [reflexivity|lia].
  - rewrite read_each_covered by (auto; lia).
    cbn [app]. do 2 f_equal; lia.
Qed.

Lemma read_multiple_blocks_cases_witness :
  read_multiple_blocks (card_with_block 7 key_trailer) 6 2
  = Some (repeat 0 16 ++ key_trailer).
Proof.
  rewrite (read_multiple_blocks_cases (card_with_block 7 key_trailer) 6 2).
  - reflexivity.
  - unfold covers. vm_compute. discriminate.
Defined.

(** ** How much read_string can return *)
Section Reader_bound.

Lemma decode_ignore_length : forall n bs,
  (List.length bs <= n)%nat ->
  (List.length (Utf8.decode_ignore bs) <= List.length bs)%nat.
Proof.
  induction n as [|n IH]; intros bs Hn.
  - destruct bs; cbn [List.length] in *; [cbn; lia|lia].
  - destruct bs as [|b0 r0]; [cbn; lia|].
    rewrite Utf8Facts.decode_ignore_eq.
    repeat match goal with
           | |- context [match ?l with [] => _ | _ :: _ => _ end] =>
               is_var l; destruct l
           | |- context [if ?c then _ else _] => destruct c
           end;
      cbn [List.length] in *;
      try lia;
      match goal with
      | |- context [Utf8.decode_ignore ?r] =>
          specialize (IH r); cbn [List.length] in IH; lia
      end.
Qed.

Lemma len_decode_ignore bs : len (Utf8.decode_ignore bs) <= len bs.
Proof.
  unfold len. pose proof (decode_ignore_length _ bs (Nat.le_refl _)). lia.
Qed.

Lemma read_block_length card b block_data :
  read_block card b = Some block_data -> len block_data = 16.
Proof.
  unfold read_block, read_card_raw.
  destruct (is_4k card);
    (destruct (Z.leb_spec 0 b); cbn [andb negb]; [|discriminate]);
    (match goal with |- context [b <=? ?n] => destruct (Z.leb_spec b n) end;
     cbn [andb negb]; [|discriminate]);
    (destruct (1024 <=? len (dump card)); [|discriminate]);
    (destruct (Z.leb_spec ((b + 1) * 16) (len (dump card))); [|discriminate]);
    intros [= <-]; unfold len, slice in *;
    rewrite length_firstn, length_skipn; lia.
Qed.

Lemma read_blocks_bound expired card count maxb max_blocks_to_read :
  forall fuel tick cur chars blocks raw,
    len (read_blocks fuel expired card count maxb max_blocks_to_read tick cur
                     chars blocks raw)
    <= len raw + 16 * Z.max 0 (max_blocks_to_read - blocks).
Proof.
  induction fuel as [|fuel IH]; intros tick cur chars blocks raw;
    cbn [read_blocks]; [lia|].
  destruct (Z.ltb_spec blocks max_blocks_to_read) as [Hb|Hb];
    [|rewrite andb_false_r; lia].
  destruct ((chars <? count) && (cur <? maxb)); cbn [andb]; [|lia].
  destruct (expired tick); [lia|].
  destruct (is_trailer cur); [apply IH|].
  destruct (read_block card cur) as [[|x block_data]|] eqn:Er; try lia.
  apply read_block_length in Er.
  destruct (_ && _); [lia|].
  destruct (_ >=? count).
  - rewrite len_app. lia.
  - etransitivity; [apply IH|]. rewrite len_app. lia.
Qed.

Lemma len_slice_le {A} (l : list A) a b : 0 <= b - a -> len (slice l a b) <= b - a.
Proof. unfold len, slice. intros. rewrite length_firstn. lia. Qed.

Lemma read_string_header_sizes block_data max_length h :
  read_string_header block_data max_length = Some h ->
  (header_size h = 4 \/ header_size h = 2) /\ data_start h = header_size h.
Proof.
  unfold read_string_header.
  destruct (_ && _); [intros [= <-]; auto|].
  destruct (_ && _); [intros [= <-]; auto|discriminate].
Qed.

Lemma read_string_within_limit expired card start_block max_length result :
  read_string expired card start_block max_length = Some result ->
  len result <= max_length.
Proof.
  unfold read_string.
  destruct (read_block card start_block) as [[|x l]|]; try discriminate.
  destruct (read_string_header (x :: l) max_length) as [h|] eqn:Eh;
    [|discriminate].
  assert (Hpos : 0 < char_count h).
  { revert Eh. unfold read_string_header.
    destruct (Z.ltb_spec 0 (length_4byte (x :: l))); cbn [andb].
    - destruct (_ && _); [intros [= <-]; assumption|].
      destruct (Z.ltb_spec 0 (length_2byte (x :: l))); cbn [andb];
        [|discriminate].
      destruct (_ <=? 1000); [intros [= <-]; assumption|discriminate].
    - destruct (Z.ltb_spec 0 (length_2byte (x :: l))); cbn [andb];
        [|discriminate].
      destruct (_ <=? 1000); [intros [= <-]; assumption|discriminate]. }
  destruct (Z.eqb_spec (char_count h) 0); [lia|].
  destruct (Z.gtb_spec (char_count h) max_length); [discriminate|].
  intros [= <-]. unfold len. rewrite length_firstn. lia.
Qed.

End Reader_bound.

(** X11.  Whatever the card holds, read_string never returns more
    characters than the length limit it is given, and never more than 526
    whatever that limit is: it reads the rest of the first block and at
    most 32 further blocks. *)
Theorem read_string_at_most_526 expired card start_block max_length result :
  read_string expired card start_block max_length = Some result ->
  len result <= max_length /\ len result <= 526.
Proof.
  intros Hr. split.
  { apply read_string_within_limit in Hr. exact Hr. }
  apply read_string_result in Hr as (block_data & h & Hb & Hh & ->).
  apply read_string_header_sizes in Hh as [Hs Hd].
  assert (Hf : forall (l : list Z) n, len (firstn n l) <= len l)
    by (intros l n; unfold len; rewrite length_firstn; lia).
  etransitivity; [apply Hf|].
  etransitivity; [apply len_decode_ignore|].
  unfold collect.
  etransitivity; [apply read_blocks_bound|].
  rewrite Hd.
  pose proof (len_slice_le block_data (header_size h)
                (header_size h + (16 - header_size h)) ltac:(lia)).
  lia.
Qed.

Lemma read_string_at_most_526_witness :
  read_string never (snd (write_string blank_1k 4 hello 3000)) 4 3000
  = Some hello
  /\ len hello <= 3000 /\ len hello <= 526.
Proof.
  assert (H : read_string never (snd (write_string blank_1k 4 hello 3000))
                          4 3000 = Some hello) by (vm_compute; reflexivity).
  split; [exact H|].
  exact (read_string_at_most_526 never _ 4 3000 hello H).
Defined.

(** ** get_string_info on a stored record *)
Section Info.

Lemma decode_zeros n : Utf8.decode_ignore (repeat 0 n) = repeat 0 n.
Proof. induction n as [|n IH]; [reflexivity|]. cbn [repeat]. now rewrite Utf8Facts.decode_ignore_eq, IH. Qed.

(** The bytes before a cut of an encoding decode to a prefix of the
    text. *)
Lemma decode_firstn_encode s : forall bs k,
  Utf8.encode s = Some bs ->
  exists m prefix_bytes,
    Utf8.decode_ignore (firstn k bs) = firstn m s
    /\ (m <= List.length s)%nat
    /\ Utf8.encode (firstn m s) = Some prefix_bytes
    /\ (List.length prefix_bytes <= k)%nat
    /\ ((m < List.length s)%nat ->
        forall next_bytes,
          Utf8.encode (firstn (S m) s) = Some next_bytes ->
          (k < List.length next_bytes)%nat).
Proof.
  induction s as [|c s IH]; intros bs k E.
  - injection E as <-. exists O, []. rewrite firstn_nil.
    cbn [firstn List.length]. repeat split; try reflexivity; lia.
  - cbn [Utf8.encode] in E.
    destruct (Utf8.encode_char c) as [cb|] eqn:Ec; [|discriminate].
    destruct (Utf8.encode s) as [sb|] eqn:Es; [|discriminate].
    injection E as <-.
    pose proof (Utf8Facts.encode_char_encoded _ _ Ec) as Hc.
    rewrite firstn_app.
    destruct (Nat.lt_ge_cases k (List.length cb)) as [Hk|Hk].
    + replace (k - List.length cb)%nat with O by lia.
      rewrite firstn_O, app_nil_r, (Utf8Facts.decode_cut c cb k) by assumption.
      exists O, []. cbn [firstn List.length Utf8.encode].
      repeat split; try reflexivity; try lia.
      intros _ next_bytes. rewrite Ec. intros [= <-].
      rewrite app_nil_r. exact Hk.
    + rewrite firstn_all2, (Utf8Facts.decode_encoded c cb) by assumption.
      destruct (IH sb (k - List.length cb)%nat eq_refl)
        as (m & pb & -> & Hm & Hpb & Hlen & Hmax).
      exists (S m), (cb ++ pb). cbn [firstn List.length Utf8.encode].
      rewrite Ec, Hpb, length_app.
      repeat split; try reflexivity; try lia.
      intros Hlt next_bytes.
      change (match s with [] => [] | a :: l => a :: firstn m l end)
        with (firstn (S m) s).
      destruct (Utf8.encode (firstn (S m) s)) as [nb|] eqn:En;
        [|discriminate].
      intros [= <-]. rewrite length_app.
      specialize (Hmax ltac:(lia) nb eq_refl). lia.
Qed.

Lemma slice_after_header n (first : list Z) :
  List.length first = 12%nat ->
  slice (header_bytes n ++ first) 4 (4 + Z.min (16 - 4) 50) = first.
Proof.
  intros Hf. unfold slice, header_bytes.
  change (Z.to_nat (4 + Z.min (16 - 4) 50 - 4)) with 12%nat.
  change (Z.to_nat 4) with 4%nat. cbn [app skipn].
  apply firstn_all2. lia.
Qed.

Lemma get_string_info_new card start_block n (first : list Z) :
  read_block card start_block = Some (header_bytes n ++ first) ->
  0 < n <= 10000 -> List.length first = 12%nat ->
  get_string_info card start_block
  = Some (mkInfo n NewFormat 4
                 (Utf8.decode_ignore first
                  ++ (if n >? len (Utf8.decode_ignore first)
                      then codepoints "..." else []))).
Proof.
  intros Hb Hn Hf. unfold get_string_info. rewrite Hb.
  destruct (header_bytes n ++ first) as [|x l] eqn:E; [discriminate E|].
  rewrite <- E. cbv zeta.
  rewrite length_4byte_header, byte0_header by lia.
  rewrite (proj2 (Z.ltb_lt 0 n)), (proj2 (Z.leb_le n 10000)) by lia.
  cbn [andb orb Z.eqb].
  now rewrite slice_after_header.
Qed.

End Info.

(** X12.  After write_string has stored a text that is not empty,
    get_string_info at the first block of the record reports the
    character count of the text and the 4-byte format.  Its preview is
    cut from the 12 bytes of the first block: for a text of fewer than 12
    UTF-8 bytes it is the text followed by the NUL padding, without an
    ellipsis; for a longer one it is the characters that lie whole in
    these bytes, that is, the longest prefix of the text whose UTF-8
    encoding has at most 12 bytes, with an ellipsis when the text has
    more characters. *)
Theorem get_string_info_of_record card start_block max_length text
        text_bytes :
  covers card -> transfers_succeed card ->
  Utf8.encode text = Some text_bytes ->
  0 < len text <= max_length -> 1 <= start_block ->
  (4 + len text_bytes + 15) / 16 <= len (free_blocks card start_block) ->
  exists card' info,
    write_string card start_block text max_length = (Returned true, card')
    /\ get_string_info card' (effective_start start_block) = Some info
    /\ info_length info = len text /\ info_format info = NewFormat
    /\ info_data_start info = 4
    /\ (len text_bytes < 12 ->
        info_preview info
        = text ++ repeat 0 (Z.to_nat (12 - len text_bytes)))
    /\ (12 <= len text_bytes ->
        exists m prefix_bytes,
          info_preview info
          = firstn m text
            ++ (if len text >? len (firstn m text)
                then codepoints "..." else [])
          /\ (m <= List.length text)%nat
          /\ Utf8.encode (firstn m text) = Some prefix_bytes
          /\ len prefix_bytes <= 12
          /\ ((m < List.length text)%nat ->
              forall next_bytes,
                Utf8.encode (firstn (S m) text) = Some next_bytes ->
                12 < len next_bytes)).
Proof.
  intros Hc Hok He Hl Hs Hfree.
  pose proof (stored_text_small card start_block text text_bytes Hs He Hfree)
    as Hl'.
  destruct (write_then_read never card start_block max_length text text_bytes)
    as (card' & W & _ & Hfirst & _); try assumption; try lia.
  set (body := text_bytes
               ++ repeat 0 (Z.to_nat ((- (4 + len text_bytes)) mod 16))).
  assert (Hbody : (12 <= List.length body)%nat).
  { pose proof (len_padded_body text_bytes) as Hp. fold body in Hp.
    destruct (blocks_needed_positive text_bytes) as [k Hk].
    rewrite Hk in Hp. unfold len in Hp. lia. }
  change (slice (record_bytes (len text) text_bytes) 0 16)
    with (slice (header_bytes (len text) ++ body)
                (Z.of_nat 0 * 16) ((Z.of_nat 0 + 1) * 16)) in Hfirst.
  rewrite first_chunk in Hfirst by exact Hbody.
  assert (H12 : List.length (firstn 12 body) = 12%nat)
    by (rewrite length_firstn; lia).
  pose proof (get_string_info_new card' _ (len text) (firstn 12 body)
                Hfirst ltac:(lia) H12) as Hi.
  eexists card', _. split; [exact W|]. split; [exact Hi|].
  cbn [info_length info_format info_data_start info_preview].
  repeat split.
  - intros Hshort.
    assert (Hpad : (- (4 + len text_bytes)) mod 16 = 12 - len text_bytes)
      by (pose proof (len_nonneg text_bytes); arith).
    assert (E : firstn 12 body
                = text_bytes ++ repeat 0 (Z.to_nat (12 - len text_bytes))).
    { unfold body. rewrite Hpad. apply firstn_all2.
      rewrite length_app, repeat_length. unfold len in *. lia. }
    rewrite E, (Utf8Facts.decode_encode text) by exact He.
    rewrite decode_zeros.
    match goal with
    | |- context [?a >? ?b] =>
        replace (a >? b) with false
          by (symmetry; rewrite Z.gtb_ltb; apply Z.ltb_ge; rewrite len_app;
              pose proof (len_nonneg (repeat 0 (Z.to_nat (12 - len text_bytes))));
              lia)
    end.
    now rewrite app_nil_r.
  - intros Hlong.
    assert (E : firstn 12 body = firstn 12 text_bytes).
    { unfold body. rewrite firstn_app.
      replace (12 - List.length text_bytes)%nat with O
        by (unfold len in Hlong; lia).
      now rewrite firstn_O, app_nil_r. }
    rewrite E.
    destruct (decode_firstn_encode text text_bytes 12 He)
      as (m & pb & -> & Hm & Hpb & Hlen & Hmax).
    exists m, pb. split; [reflexivity|]. split; [exact Hm|].
    split; [exact Hpb|]. split; [unfold len; lia|].
    intros Hlt next_bytes Hn. specialize (Hmax Hlt next_bytes Hn).
    unfold len. lia.
Qed.

Lemma get_string_info_of_record_witness :
  exists card' info,
    write_string blank_1k 4 (codepoints "Hi") 3000 = (Returned true, card')
    /\ get_string_info card' 4 = Some info
    /\ info_length info = 2
    /\ info_preview info = codepoints "Hi" ++ repeat 0 10.
Proof.
  destruct (get_string_info_of_record blank_1k 4 3000 (codepoints "Hi")
              (codepoints "Hi"))
    as (card' & info & W & Hi & Hn & _ & _ & Hp & _).
  - unfold covers. vm_compute. discriminate.
  - intros b. reflexivity.
  - reflexivity.
  - split; vm_compute; [reflexivity|discriminate].
  - lia.
  - vm_compute. discriminate.
  - exists card', info. split; [exact W|]. split; [exact Hi|].
    split; [exact Hn|]. apply Hp. vm_compute. reflexivity.
Defined.

(** X13.  With a card image of fewer than 1024 bytes, which read_card_raw
    takes for no image at all, nothing is read and nothing is written:
    read_block, read_string and get_string_info find nothing, and
    write_string does not return True and leaves the card, the log of
    transfers included, as it was. *)
Theorem short_image_is_no_card card :
  len (dump card) < 1024 ->
  (forall b, read_block card b = None)
  /\ (forall expired start_block max_length,
        read_string expired card start_block max_length = None)
  /\ (forall start_block, get_string_info card start_block = None)
  /\ (forall start_block text max_length,
        exists r, write_string card start_block text max_length = (r, card)
                  /\ r <> Returned true).
Proof.
  intros Hshort.
  assert (Hb : forall b, read_block card b = None).
  { intros b. unfold read_block, read_card_raw.
    rewrite (proj2 (Z.leb_gt _ _) Hshort). now destruct (negb _). }
  split; [exact Hb|]. split; [|split].
  - intros. unfold read_string. now rewrite Hb.
  - intros. unfold get_string_info. now rewrite Hb.
  - intros start_block text max_length.
    destruct (write_string_loop card start_block max_length text)
      as [H|(text_bytes & ok & card' & _ & _ & _ & Hplan & W & E)];
      [exact H|].
    rewrite E.
    destruct (blocks_needed_positive text_bytes) as [k Hk].
    rewrite Hk in W. cbn [seq write_chunks] in W.
    destruct (nth_error _ 0) as [b|]; [|injection W as <- <-].
    2:{ eexists; split; [reflexivity|discriminate]. }
    destruct (write_block_cases card b
                (slice (record_bytes (len text) text_bytes)
                       (Z.of_nat 0 * 16) ((Z.of_nat 0 + 1) * 16)))
      as [R|(_ & _ & _ & Himg & _)]; [|lia].
    rewrite R in W. injection W as <- <-.
    eexists; split; [reflexivity|discriminate].
Qed.

Lemma short_image_is_no_card_witness :
  read_block (mkCard false (repeat 0 320) (fun _ => true) false []) 1 = None.
Proof.
  apply (short_image_is_no_card
           (mkCard false (repeat 0 320) (fun _ => true) false [])).
  vm_compute. reflexivity.
Defined.

(** ** The legacy reader on records of write_string *)
Section Legacy_reader.

Lemma libnfc_read_block card b block_data :
  read_block card b = Some block_data ->
  LibNFC_MIFARE.read_block card b = Some block_data.
Proof.
  unfold read_block, read_card_raw, LibNFC_MIFARE.read_block,
    LibNFC_MIFARE.read_card, LibNFC_MIFARE.py_slice, LibNFC_MIFARE.index.
  destruct (negb _) eqn:En; [discriminate|].
  apply negb_false_iff, andb_true_iff in En as [H0 _].
  apply Z.leb_le in H0.
  destruct (Z.leb_spec 1024 (len (dump card))); [|discriminate].
  destruct (Z.leb_spec ((b + 1) * 16) (len (dump card))); [|discriminate].
  intros [= <-].
  rewrite (proj2 (Z.gtb_gt _ _)) by lia.
  rewrite (proj2 (Z.geb_le _ _)) by lia.
  rewrite !(proj2 (Z.ltb_ge _ _)) by lia.
  now rewrite !Z.min_l by lia.
Qed.

Lemma byte1_header n rest :
  0 <= n < 65536 -> byte_at (header_bytes n ++ rest) 1 = 0.
Proof.
  intros Hn. rewrite header_bytes_digits by lia.
  cbn [app byte_at nth]. arith.
Qed.

End Legacy_reader.

(** X14.  The legacy reader cannot read what write_string writes: for
    every record that write_string has stored, read_long_string of
    libnfc_reader.py takes the first two bytes of the 4-byte header for a
    length of 0 and returns the empty string. *)
Theorem legacy_reader_sees_empty_string card start_block max_length text
        text_bytes :
  covers card -> transfers_succeed card ->
  Utf8.encode text = Some text_bytes ->
  len text <= max_length -> 1 <= start_block ->
  (4 + len text_bytes + 15) / 16 <= len (free_blocks card start_block) ->
  exists card',
    write_string card start_block text max_length = (Returned true, card')
    /\ LibNFC_MIFARE.read_long_string card' (effective_start start_block)
       = Some [].
Proof.
  intros Hc Hok He Hl Hs Hfree.
  pose proof (stored_text_small card start_block text text_bytes Hs He Hfree)
    as Hl'.
  destruct (write_then_read never card start_block max_length text text_bytes)
    as (card' & W & _ & Hfirst & _); try assumption.
  exists card'. split; [exact W|].
  apply libnfc_read_block in Hfirst.
  unfold LibNFC_MIFARE.read_long_string. rewrite Hfirst.
  pose proof (len_nonneg text) as Hn.
  set (body := text_bytes
               ++ repeat 0 (Z.to_nat ((- (4 + len text_bytes)) mod 16))).
  assert (Hbody : (12 <= List.length body)%nat).
  { pose proof (len_padded_body text_bytes) as Hp. fold body in Hp.
    destruct (blocks_needed_positive text_bytes) as [k Hk].
    rewrite Hk in Hp. unfold len in Hp. lia. }
  change (slice (record_bytes (len text) text_bytes) 0 16)
    with (slice (header_bytes (len text) ++ body)
                (Z.of_nat 0 * 16) ((Z.of_nat 0 + 1) * 16)).
  rewrite first_chunk by exact Hbody.
  destruct (header_bytes (len text) ++ firstn 12 body) as [|x l] eqn:E;
    [discriminate E|].
  rewrite <- E.
  assert (H16 : len (header_bytes (len text) ++ firstn 12 body) = 16).
  { rewrite len_app, len_header_bytes. unfold len.
    rewrite length_firstn. lia. }
  rewrite H16, byte0_header, byte1_header by lia.
  reflexivity.
Qed.

Lemma legacy_reader_sees_empty_string_witness :
  exists card',
    write_string blank_1k 4 hello 3000 = (Returned true, card')
    /\ LibNFC_MIFARE.read_long_string card' 4 = Some [].
Proof.
  apply (legacy_reader_sees_empty_string blank_1k 4 3000 hello hello).
  - unfold covers. vm_compute. discriminate.
  - intros b. reflexivity.
  - reflexivity.
  - vm_compute. discriminate.
  - lia.
  - vm_compute. discriminate.
Defined.

(** ** Single rounds of the collection loop *)
Section Read_rounds.

Variables (expired : nat -> bool) (card : Card).
Variables (count maxb max_blocks_to_read : Z).

Lemma read_blocks_skips_trailer fuel tick cur chars blocks raw :
  chars < count -> cur < maxb -> blocks < max_blocks_to_read ->
  expired tick = false -> is_trailer cur = true ->
  read_blocks (S fuel) expired card count maxb max_blocks_to_read tick cur
              chars blocks raw
  = read_blocks fuel expired card count maxb max_blocks_to_read (S tick)
                (cur + 1) chars blocks raw.
Proof.
  intros Hc Hm Hb He Ht. cbn [read_blocks].
  rewrite (proj2 (Z.ltb_lt _ _) Hc), (proj2 (Z.ltb_lt _ _) Hm),
    (proj2 (Z.ltb_lt _ _) Hb), He, Ht.
  reflexivity.
Qed.

Lemma read_blocks_ends_at_count fuel tick cur chars blocks raw block_data :
  chars < count -> cur < maxb -> blocks < max_blocks_to_read ->
  expired tick = false -> is_trailer cur = false ->
  read_block card cur = Some block_data ->
  bytes_eqb block_data zero_block = false ->
  count <= len (Utf8.decode_ignore (raw ++ block_data)) ->
  read_blocks (S fuel) expired card count maxb max_blocks_to_read tick cur
              chars blocks raw
  = raw ++ block_data.
Proof.
  intros Hc Hm Hb He Ht Hr Hz Hn. cbn [read_blocks].
  rewrite (proj2 (Z.ltb_lt _ _) Hc), (proj2 (Z.ltb_lt _ _) Hm),
    (proj2 (Z.ltb_lt _ _) Hb), He, Ht, Hr, Hz.
  cbn [andb].
  destruct block_data as [|x l]; [now rewrite app_nil_r|].
  now rewrite (proj2 (Z.geb_le _ _) Hn).
Qed.

End Read_rounds.

(** ** The data storage example *)
Section Example_5.

Lemma encode_app s1 : forall s2 b1 b2,
  Utf8.encode s1 = Some b1 -> Utf8.encode s2 = Some b2 ->
  Utf8.encode (s1 ++ s2) = Some (b1 ++ b2).
Proof.
  induction s1 as [|c s1 IH]; intros s2 b1 b2 E1 E2.
  - injection E1 as <-. exact E2.
  - cbn [app Utf8.encode] in *.
    destruct (Utf8.encode_char c) as [cb|]; [|discriminate].
    destruct (Utf8.encode s1) as [sb|] eqn:Es; [|discriminate].
    injection E1 as <-.
    rewrite (IH s2 sb b2 eq_refl E2). now rewrite app_assoc.
Qed.

End Example_5.

(** X15.  example_5_data_storage stores its four items two blocks apart
    "to avoid overlap", but each item takes two blocks and the sector
    trailer 7 lies between: the record of the third item, started at block
    8, lands on the second block of the record started at block 6.  On
    every writable card all four writes succeed, and the string read back
    from block 6 is the start of the second item followed by the header
    and the start of the third. *)
Theorem example_5_mixes_two_records expired card issued issued_bytes :
  covers card -> transfers_succeed card ->
  (forall tick, expired tick = false) ->
  Utf8.encode issued = Some issued_bytes -> len issued_bytes <= 500 ->
  exists card',
    example_5_data_storage expired card issued
    = (Returned true, card',
       [ Some (codepoints "Name: John Doe");
         Some (codepoints "Department: " ++ [0; 0; 0; 15]
               ++ codepoints "Access ");
         Some (codepoints "Access Level: 2");
         Some (codepoints "Issued: " ++ issued) ]).
Proof.
  intros Hc Hok Htime He Hlen.
  set (t1 := codepoints "Name" ++ codepoints ": " ++ codepoints "John Doe").
  set (t2 := codepoints "Department" ++ codepoints ": "
             ++ codepoints "Engineering").
  set (t3 := codepoints "Access Level" ++ codepoints ": " ++ codepoints "2").
  set (t4 := codepoints "Issued" ++ codepoints ": " ++ issued).
  set (b4 := codepoints "Issued: " ++ issued_bytes).
  assert (E4 : Utf8.encode t4 = Some b4).
  { change t4 with (codepoints "Issued: " ++ issued).
    apply encode_app; [reflexivity|exact He]. }
  pose proof (Utf8Facts.encode_length _ _ He) as Hel.
  pose proof (len_nonneg issued_bytes) as Hnn.
  assert (Hl4 : len t4 = 8 + len issued)
    by (unfold t4; rewrite !len_app;
        change (len (codepoints "Issued")) with 6;
        change (len (codepoints ": ")) with 2; lia).
  assert (Hb4 : len b4 = 8 + len issued_bytes)
    by (unfold b4; rewrite len_app;
        change (len (codepoints "Issued: ")) with 8; lia).
  assert (Hfree : forall c s, max_blocks c = max_blocks card ->
            (s = 4 \/ s = 6 \/ s = 8 \/ s = 10) ->
            40 <= len (free_blocks c s)).
  { intros c s Hm Hs. unfold free_blocks. rewrite Hm.
    destruct (max_blocks_cases card) as [[-> _]|[-> _]];
      destruct Hs as [-> | [-> | [-> | ->]]]; vm_compute; discriminate. }
  assert (Hplan : forall c, max_blocks c = max_blocks card ->
            record_blocks c 4 t1 = [4; 5] /\ record_blocks c 6 t2 = [6; 8]
            /\ record_blocks c 8 t3 = [8; 9]).
  { intros c Hm. unfold record_blocks. rewrite Hm.
    destruct (max_blocks_cases card) as [[-> _]|[-> _]];
      repeat split; reflexivity. }
  assert (Hcap : forall c s n, max_blocks c = max_blocks card ->
            (s = 4 \/ s = 6 \/ s = 8 \/ s = 10) -> n <= 508 ->
            (4 + n + 15) / 16 <= len (free_blocks c s)).
  { intros c s n Hm Hs Hn. specialize (Hfree c s Hm Hs). arith. }
  destruct (write_string_record card 4 3000 t1 t1 Hc Hok eq_refl)
    as (c1 & W1 & Hc1 & Hok1 & Hm1 & Hin1 & Hout1).
  { vm_compute. discriminate. }
  { lia. }
  { apply Hcap; auto. vm_compute. discriminate. }
  destruct (write_string_record c1 6 3000 t2 t2 Hc1 Hok1 eq_refl)
    as (c2 & W2 & Hc2 & Hok2 & Hm2 & Hin2 & Hout2).
  { vm_compute. discriminate. }
  { lia. }
  { apply Hcap; auto. vm_compute. discriminate. }
  rewrite Hm1 in Hm2.
  destruct (write_string_record c2 8 3000 t3 t3 Hc2 Hok2 eq_refl)
    as (c3 & W3 & Hc3 & Hok3 & Hm3 & Hin3 & Hout3).
  { vm_compute. discriminate. }
  { lia. }
  { apply Hcap; auto. vm_compute. discriminate. }
  rewrite Hm2 in Hm3.
  destruct (write_string_record c3 10 3000 t4 b4 Hc3 Hok3 E4)
    as (c4 & W4 & Hc4 & Hok4 & Hm4 & Hin4 & Hout4).
  { unfold len in *. lia. }
  { lia. }
  { apply Hcap; auto. lia. }
  rewrite Hm3 in Hm4.
  destruct (Hplan card eq_refl) as (P1 & _ & _).
  destruct (Hplan c1 Hm1) as (_ & P2 & _).
  destruct (Hplan c2 Hm2) as (_ & _ & P3).
  rewrite P1 in Hin1. rewrite P2 in Hin2, Hout2. rewrite P3 in Hin3, Hout3.
  assert (F4 : forall b, b < 10 -> read_block c4 b = read_block c3 b).
  { intros b Hb. apply Hout4. intros Hi.
    apply record_blocks_free in Hi. lia. }
  assert (F3 : forall b, b <> 8 -> b <> 9 -> read_block c3 b = read_block c2 b).
  { intros b H8 H9. apply Hout3. cbn [In]. lia. }
  assert (F2 : forall b, b <> 6 -> b <> 8 -> read_block c2 b = read_block c1 b).
  { intros b H6 H8. apply Hout2. cbn [In]. lia. }
  assert (R4 := Hin1 0%nat 4 eq_refl). assert (R5 := Hin1 1%nat 5 eq_refl).
  assert (R6 := Hin2 0%nat 6 eq_refl).
  assert (R8 := Hin3 0%nat 8 eq_refl). assert (R9 := Hin3 1%nat 9 eq_refl).
  rewrite <- F2, <- F3, <- F4 in R4, R5 by lia.
  rewrite <- F3, <- F4 in R6 by lia.
  rewrite <- F4 in R8, R9 by lia.
  assert (Hplan4 : forall s bs, record_blocks c4 s bs = record_blocks card s bs)
    by (intros; unfold record_blocks; now rewrite Hm4).
  assert (Hfree4 : forall s, free_blocks c4 s = free_blocks card s)
    by (intros; unfold free_blocks; now rewrite Hm4).
  exists c4.
  unfold example_5_data_storage.
  cbn [data_items store_items].
  fold t1 t2 t3 t4.
  rewrite W1. change (4 + 2) with 6. rewrite W2.
  change (6 + 2) with 8. rewrite W3. change (8 + 2) with 10. rewrite W4.
  assert (S1 : read_string expired c4 4 3000 = Some t1).
  { apply (read_record expired c4 4 3000 t1 t1 Htime eq_refl).
    - split; vm_compute; [reflexivity|discriminate].
    - vm_compute. discriminate.
    - lia.
    - apply Hcap; auto. vm_compute. discriminate.
    - rewrite Hplan4, P1.
      intros i b Hb. destruct i as [|[|[|i]]]; cbn [nth_error] in Hb;
        try discriminate Hb; injection Hb as <-; assumption. }
  assert (S3 : read_string expired c4 8 3000 = Some t3).
  { apply (read_record expired c4 8 3000 t3 t3 Htime eq_refl).
    - split; vm_compute; [reflexivity|discriminate].
    - vm_compute. discriminate.
    - lia.
    - apply Hcap; auto. vm_compute. discriminate.
    - rewrite Hplan4. destruct (Hplan card eq_refl) as (_ & _ & ->).
      intros i b Hb. destruct i as [|[|[|i]]]; cbn [nth_error] in Hb;
        try discriminate Hb; injection Hb as <-; assumption. }
  assert (S4 : read_string expired c4 10 3000 = Some t4).
  { apply (read_record expired c4 10 3000 t4 b4 Htime E4).
    - unfold len in *. lia.
    - lia.
    - lia.
    - apply Hcap; auto. lia.
    - rewrite Hplan4. unfold record_blocks in Hin4 |- *.
      rewrite <- Hm3. exact Hin4. }
  assert (S2 : read_string expired c4 6 3000
               = Some (codepoints "Department: " ++ [0; 0; 0; 15]
                       ++ codepoints "Access ")).
  { match type of R6 with
    | _ = Some ?r => let r' := eval vm_compute in r in change r with r' in R6
    end.
    match type of R8 with
    | _ = Some ?r => let r' := eval vm_compute in r in change r with r' in R8
    end.
    rewrite (read_string_found expired c4 6 3000 _
               (mkHeader NewFormat 23 4 4) R6);
      [|discriminate|vm_compute; reflexivity|discriminate
       |vm_compute; discriminate].
    unfold collect.
    cbn [header_size data_start char_count]. rewrite Hm4.
    change (6 + 1) with 7.
    destruct (max_blocks_cases card) as [[-> _]|[-> _]];
      (match goal with
       | |- context [read_blocks ?f] =>
           let f' := eval vm_compute in f in change f with f'
       end);
      (rewrite read_blocks_skips_trailer;
       [|lia|lia|lia|apply Htime|reflexivity]);
      change (7 + 1) with 8;
      (erewrite read_blocks_ends_at_count;
       [|lia|lia|lia|apply Htime|reflexivity|exact R8|reflexivity
        |vm_compute; discriminate]);
      vm_compute; reflexivity. }
  cbn [read_items data_items].
  change (4 + 2) with 6. change (6 + 2) with 8. change (8 + 2) with 10.
  rewrite S1, S2, S3, S4. reflexivity.
Qed.

Lemma example_5_mixes_two_records_witness :
  exists card',
    example_5_data_storage never blank_1k (codepoints "2025-10-04")
    = (Returned true, card',
       [ Some (codepoints "Name: John Doe");
         Some (codepoints "Department: " ++ [0; 0; 0; 15]
               ++ codepoints "Access ");
         Some (codepoints "Access Level: 2");
         Some (codepoints "Issued: " ++ codepoints "2025-10-04") ]).
Proof.
  apply (example_5_mixes_two_records never blank_1k (codepoints "2025-10-04")
           (codepoints "2025-10-04")).
  - unfold covers. vm_compute. discriminate.
  - intros b. reflexivity.
  - intros tick. reflexivity.
  - reflexivity.
  - vm_compute. discriminate.
Defined.

(** ** The block walk of the legacy readers *)
Section Block_walk.

Lemma is_trailer_block_is_trailer b : is_trailer_block b = is_trailer b.
Proof.
  unfold is_trailer_block, is_trailer.
  destruct (Z.eqb_spec (b mod 4) 3); destruct (Z.eqb_spec ((b + 1) mod 4) 0);
    try reflexivity; exfalso; arith.
Qed.

Lemma plan_from_next maxb : forall plan cur i a b,
  plan_from maxb cur plan ->
  nth_error plan i = Some a -> nth_error plan (S i) = Some b ->
  b = next_data_block a.
Proof.
  induction plan as [|x plan IH]; intros cur i a b Hp Ha Hb;
    [destruct i; discriminate|].
  cbn [plan_from] in Hp. destruct Hp as (_ & _ & _ & Hrest).
  destruct i as [|i].
  - cbn [nth_error] in Ha, Hb. injection Ha as ->.
    destruct plan as [|y plan]; [discriminate|].
    cbn [nth_error] in Hb. injection Hb as ->.
    cbn [plan_from] in Hrest. destruct Hrest as (Hr & Ht & Hgap & _).
    unfold next_data_block. rewrite is_trailer_block_is_trailer.
    destruct (is_trailer (a + 1)) eqn:E1.
    + destruct (Z.eq_dec b (a + 1)) as [->|Hne]; [congruence|].
      pose proof (trailer_next _ E1) as E2.
      destruct (Z.eq_dec b (a + 1 + 1)) as [->|Hne2]; [reflexivity|].
      specialize (Hgap (a + 1 + 1) ltac:(lia)). congruence.
    + destruct (Z.eq_dec b (a + 1)) as [->|Hne]; [reflexivity|].
      specialize (Hgap (a + 1) ltac:(lia)). congruence.
  - cbn [nth_error] in Ha. change (nth_error (x :: plan) (S (S i)))
      with (nth_error plan (S i)) in Hb.
    exact (IH _ i a b Hrest Ha Hb).
Qed.

End Block_walk.

(** X16.  The legacy readers and write_string agree on the layout: in
    every plan of write_string each block is next_data_block of the block
    before it, so the walk of read_long_string in 2main.py, auth.py and
    debug.py visits the blocks of a record in the order write_string
    filled them. *)
Theorem plan_follows_next_data_block card start_block text_bytes i a b :
  nth_error (record_blocks card start_block text_bytes) i = Some a ->
  nth_error (record_blocks card start_block text_bytes) (S i) = Some b ->
  b = next_data_block a /\ is_trailer_block b = false.
Proof.
  intros Ha Hb.
  destruct (record_blocks_plan card start_block text_bytes) as [Hp|E];
    [|rewrite E in Ha; destruct i; discriminate].
  split; [exact (plan_from_next _ _ _ _ _ _ Hp Ha Hb)|].
  rewrite is_trailer_block_is_trailer.
  apply nth_error_In in Hb. apply record_blocks_free in Hb. tauto.
Qed.

Lemma plan_follows_next_data_block_witness :
  8 = next_data_block 6 /\ is_trailer_block 8 = false.
Proof.
  apply (plan_follows_next_data_block blank_1k 6
           (codepoints "Department: Engineering") 0 6 8);
    reflexivity.
Defined.

(** ** check_card_writeability *)
Section Writeability_facts.
Import Writeability.

(** The loop counts every block that is no trailer, and no more demo
    blocks than it counts. *)
Lemma scan_counts data : forall blocks demo total,
  let n := len (filter (fun b => negb (is_trailer b)) blocks) in
  snd (scan blocks data demo total) = total + n
  /\ demo <= fst (scan blocks data demo total) <= demo + n.
Proof.
  induction blocks as [|b blocks IH]; intros demo total;
    cbn [scan filter]; cbv zeta.
  - cbn [fst snd]. change (len (@nil Z)) with 0. lia.
  - change ((b + 1) mod 4 =? 0) with (is_trailer b).
    destruct (is_trailer b); cbn [negb].
    + apply IH.
    + assert (Hl : forall l : list Z, len (b :: l) = 1 + len l)
        by (intros l; unfold len; cbn [List.length]; lia).
      rewrite Hl.
      destruct (existsb _ demo_patterns).
      * destruct (IH (demo + 1) (total + 1)) as [Ht Hd]. cbv zeta in Ht, Hd.
        split; lia.
      * destruct (IH demo (total + 1)) as [Ht Hd]. cbv zeta in Ht, Hd.
        split; lia.
Qed.

(** The two float comparisons, for every count that can occur. *)
Lemma ratio_thresholds demo :
  1 <= demo <= 23 ->
  PrimFloat.ltb ratio_high (true_div demo 23) = (7 <=? demo)
  /\ PrimFloat.ltb ratio_medium (true_div demo 23) = (3 <=? demo).
Proof.
  intros H.
  assert (E : existsb (Z.eqb demo) (map Z.of_nat (seq 1 23)) = true).
  { apply existsb_exists. exists demo. split; [|apply Z.eqb_refl].
    apply in_map_iff. exists (Z.to_nat demo). split; [lia|].
    apply in_seq. lia. }
  cbn [seq map existsb] in E.
  repeat (apply orb_true_iff in E; destruct E as [E|E];
          [apply Z.eqb_eq in E; subst demo; vm_compute; split; reflexivity|]).
  discriminate.
Qed.

End Writeability_facts.

(** X17.  check_card_writeability with a card image: it checks 23 blocks,
    whatever the size of the image, and its verdict depends on the number
    of demo blocks among them alone.  The float tests against
    0.3 and 0.1 come to whole thresholds: no demo block, writable with
    medium confidence; 1 or 2, unknown; 3 to 6, read-only with medium
    confidence; 7 or more, read-only with high confidence. *)
Theorem writeability_thresholds card :
  1024 <= len (dump card) ->
  let r := Writeability.check_card_writeability card in
  let demo := Writeability.demo_blocks_found r in
  Writeability.total_blocks_checked r = 23
  /\ 0 <= demo <= 23
  /\ (Writeability.writable r, Writeability.confidence r)
     = if demo =? 0 then (Writeability.Yes, Writeability.Medium)
       else if demo <? 3 then (Writeability.Unknown, Writeability.Low)
       else if demo <? 7 then (Writeability.No, Writeability.Medium)
       else (Writeability.No, Writeability.High).
Proof.
  intros Himg. cbv zeta.
  unfold Writeability.check_card_writeability, read_card_raw.
  rewrite (proj2 (Z.leb_le _ _) Himg).
  replace (Z.min 32 (len (dump card) / 16)) with 32 by arith.
  change (Z.to_nat (32 - 1)) with 31%nat.
  pose proof (scan_counts (dump card) (block_range 31 1) 0 0) as Hs.
  cbv zeta in Hs.
  change (len (filter _ (block_range 31 1))) with 23 in Hs.
  destruct (Writeability.scan (block_range 31 1) (dump card) 0 0)
    as [demo total].
  cbn [fst snd] in Hs. destruct Hs as [-> Hd]. cbn [Z.add] in *.
  destruct (Z.gtb_spec demo 0) as [Hpos|Hzero].
  - destruct (ratio_thresholds demo ltac:(lia)) as [-> ->].
    destruct (Z.leb_spec 7 demo); destruct (Z.leb_spec 3 demo); try lia;
      cbn [Writeability.total_blocks_checked Writeability.demo_blocks_found
           Writeability.writable Writeability.confidence];
      (split; [reflexivity|]); (split; [lia|]);
      destruct (Z.eqb_spec demo 0); try lia;
      destruct (Z.ltb_spec demo 3); try lia;
      destruct (Z.ltb_spec demo 7); try lia; reflexivity.
  - cbn [Writeability.total_blocks_checked Writeability.demo_blocks_found
         Writeability.writable Writeability.confidence].
    split; [reflexivity|]. split; [lia|].
    destruct (Z.eqb_spec demo 0); [reflexivity|lia].
Qed.

Lemma writeability_thresholds_witness :
  Writeability.writable
    (Writeability.check_card_writeability
       (card_with_block 4 (codepoints "DEMO-CARD 000001")))
  = Writeability.Unknown.
Proof.
  pose proof (writeability_thresholds
                (card_with_block 4 (codepoints "DEMO-CARD 000001"))) as H.
  cbv zeta in H.
  destruct H as (_ & _ & H); [vm_compute; discriminate|].
  apply (f_equal fst) in H. cbn [fst] in H. rewrite H.
  vm_compute. reflexivity.
Defined.
